(** * Book Distiller: the section generation workflow

    A shallow embedding of [src/lib/pages/book-distiller/index.tsx]: the
    section list, the stitched text, [parseHeading], [updateSectionLocal],
    [undoLast], [clearRun], [accept], [discard], [edit] and the asynchronous
    [generateNext] with the two timer callbacks it and [accept] schedule.

    Modelling conventions.
    - A JavaScript string is a [string]; white space and line terminators
      are the ASCII ones (code points above 127 are ordinary characters).
    - [BookDistiller] is a React function component.  Every render binds
      [sections], [autoAdvance], [isBusy], [shouldStop], ... to constants and
      builds fresh closures ([generateNext], [accept], ...) over them.  A
      closure therefore reads the values of the render that made it
      ([Render]), while the setters ([setSections], [setIsBusy], ...) write
      the live cells ([World]).
    - [db.sections] is the Dexie table keyed by [id]; reads and writes on it
      succeed and take effect at once.
    - An [await] on a provider call and a [setTimeout] are the two points
      where [generateNext] gives control back: the function is split into
      the part before the call ([generateNext_enter]), the part after it
      ([generateNext_settle]) and the timer callback ([run_timer]). *)

From Stdlib Require Import List String Ascii Bool ZArith Lia.
From Stdlib Require Import Permutation Sorted.
Import ListNotations.

Local Open Scope string_scope.
Local Open Scope Z_scope.

(** ** JavaScript strings *)

Module Js.

Definition LF : ascii := ascii_of_nat 10.
Definition CR : ascii := ascii_of_nat 13.
Definition nl : string := String LF EmptyString.

(** ECMAScript LineTerminator, restricted to ASCII. *)
Definition is_line_terminator (c : ascii) : bool :=
  (Ascii.eqb c LF || Ascii.eqb c CR)%bool.

(** ECMAScript [\s] and the characters [trim] removes, restricted to ASCII:
    TAB, LF, VT, FF, CR, SPACE. *)
Definition is_space (c : ascii) : bool :=
  let n := nat_of_ascii c in
  ((9 <=? n)%nat && (n <=? 13)%nat || (n =? 32)%nat)%bool.

Fixpoint takeWhile {A} (p : A -> bool) (l : list A) : list A :=
  match l with
  | [] => []
  | x :: l' => if p x then x :: takeWhile p l' else []
  end.

Fixpoint dropWhile {A} (p : A -> bool) (l : list A) : list A :=
  match l with
  | [] => []
  | x :: l' => if p x then dropWhile p l' else l
  end.

Definition chars : string -> list ascii := list_ascii_of_string.
Definition str : list ascii -> string := string_of_list_ascii.

(** [s.trim()] *)
Definition trim_chars (l : list ascii) : list ascii :=
  rev (dropWhile is_space (rev (dropWhile is_space l))).

Definition trim (s : string) : string := str (trim_chars (chars s)).

(** [s.includes(pat)] *)
Fixpoint includes (s pat : string) : bool :=
  (String.prefix pat s ||
   match s with
   | EmptyString => false
   | String _ s' => includes s' pat
   end)%bool.

(** [l.join(sep)] on an array of strings. *)
Definition join (sep : string) (l : list string) : string :=
  String.concat sep l.

(** [s.slice(0, n)] *)
Definition slice0 (n : nat) (s : string) : string := String.substring 0 n s.

(** [a || b] on strings: the empty string is falsy. *)
Definition or_else (a b : string) : string :=
  match a with
  | EmptyString => b
  | _ => a
  end.

Definition nonempty (a : string) : bool :=
  match a with
  | EmptyString => false
  | _ => true
  end.

(** A JavaScript number that holds an integer, or NaN ([parseInt] of a
    field such as [.5]). *)
Inductive num : Type :=
| Int (z : Z)
| NaN.

(** [n < m] for an array length [n]; a comparison with NaN is false. *)
Definition count_lt (n : nat) (m : num) : bool :=
  match m with
  | Int z => Z.of_nat n <? z
  | NaN => false
  end.

End Js.

(** ** Sections *)

Inductive Status : Type :=
| draft
| accepted
| discarded.

Definition Status_eqb (a b : Status) : bool :=
  match a, b with
  | draft, draft | accepted, accepted | discarded, discarded => true
  | _, _ => false
  end.

(** A row of [db.sections], and an element of the [sections] state. *)
Record Section_ : Type := mkSection {
  id : string;
  bookId : string;
  content : string;
  heading : string;
  status : Status;
  order : Z
}.

Definition is_accepted (s : Section_) : bool := Status_eqb (status s) accepted.

(** ** [parseHeading] *)

Module Heading.
Import Js.

Definition is_hash (c : ascii) : bool := Ascii.eqb c "#"%char.

Definition not_line_terminator (c : ascii) : bool :=
  negb (is_line_terminator c).

(** An attempt of [/^#\s+(.+)$/m] at a [#] that starts a line; [l] is the
    text after the [#].  [\s+] is greedy and may run over line ends; [(.+)]
    then takes the rest of the line it stops in.  When the white space runs
    to the end of the text, backtracking gives one white-space character
    back to [(.+)] if one that is no line terminator exists after the first.
    The result is the group before [trim]. *)
Definition match_at (l : list ascii) : option (list ascii) :=
  match takeWhile is_space l with
  | [] => None
  | _ :: run =>
      match dropWhile is_space l with
      | c :: rest => Some (takeWhile not_line_terminator (c :: rest))
      | [] =>
          match dropWhile is_line_terminator (rev run) with
          | c :: _ => Some [c]
          | [] => None
          end
      end
  end.

(** The leftmost match; [bol] tells whether the position starts a line. *)
Fixpoint first_match (bol : bool) (l : list ascii) : option (list ascii) :=
  match l with
  | [] => None
  | c :: l' =>
      match (if (bol && is_hash c)%bool then match_at l' else None) with
      | Some g => Some g
      | None => first_match (is_line_terminator c) l'
      end
  end.

(** [md.split('\n')[0]] *)
Definition first_line (l : list ascii) : list ascii :=
  takeWhile (fun c => negb (Ascii.eqb c LF)) l.

(** [.replace(/^#+\s*/, '')] *)
Definition strip_hashes (l : list ascii) : list ascii :=
  match l with
  | c :: _ => if is_hash c then dropWhile is_space (dropWhile is_hash l) else l
  | [] => []
  end.

Definition parseHeading (md : string) : string :=
  match first_match true (chars md) with
  | Some g => str (trim_chars g)
  | None =>
      or_else (slice0 120 (str (strip_hashes (first_line (chars md)))))
              "Untitled"
  end.

End Heading.

Definition parseHeading := Heading.parseHeading.

(** ** Component state *)

(** The constants one render of [BookDistiller] binds with [useState]. *)
Module R.
Record t : Type := mk {
  bookId : string;
  title : string;
  author : string;
  bookText : string;
  prompt : string;
  provider : string;
  model : string;
  apiKeys : list (string * string);
  autoAdvance : bool;
  maxSections : Js.num;
  stopToken : string;
  isBusy : bool;
  shouldStop : bool;
  sections : list Section_
}.
End R.

Definition Render : Type := R.t.

(** The live cells: the React state the setters write, and the table
    [db.sections], rows in primary-key ([id]) order. *)
Record World : Type := mkWorld {
  hooks : Render;
  db : list Section_
}.

(** The render React makes of the current state: what an event handler
    attached by the latest render reads. *)
Definition render (w : World) : Render := hooks w.

Definition setSections (f : list Section_ -> list Section_) (w : World) : World :=
  let h := hooks w in
  mkWorld
    (R.mk (R.bookId h) (R.title h) (R.author h) (R.bookText h) (R.prompt h)
          (R.provider h) (R.model h) (R.apiKeys h) (R.autoAdvance h)
          (R.maxSections h) (R.stopToken h) (R.isBusy h) (R.shouldStop h)
          (f (R.sections h)))
    (db w).

Definition setAutoAdvance (b : bool) (w : World) : World :=
  let h := hooks w in
  mkWorld
    (R.mk (R.bookId h) (R.title h) (R.author h) (R.bookText h) (R.prompt h)
          (R.provider h) (R.model h) (R.apiKeys h) b
          (R.maxSections h) (R.stopToken h) (R.isBusy h) (R.shouldStop h)
          (R.sections h))
    (db w).

Definition setIsBusy (b : bool) (w : World) : World :=
  let h := hooks w in
  mkWorld
    (R.mk (R.bookId h) (R.title h) (R.author h) (R.bookText h) (R.prompt h)
          (R.provider h) (R.model h) (R.apiKeys h) (R.autoAdvance h)
          (R.maxSections h) (R.stopToken h) b (R.shouldStop h)
          (R.sections h))
    (db w).

Definition setShouldStop (b : bool) (w : World) : World :=
  let h := hooks w in
  mkWorld
    (R.mk (R.bookId h) (R.title h) (R.author h) (R.bookText h) (R.prompt h)
          (R.provider h) (R.model h) (R.apiKeys h) (R.autoAdvance h)
          (R.maxSections h) (R.stopToken h) (R.isBusy h) b
          (R.sections h))
    (db w).

Definition set_db (f : list Section_ -> list Section_) (w : World) : World :=
  mkWorld (hooks w) (f (db w)).

(** [apiKeys[provider] || ''] *)
Fixpoint lookup_key (k : string) (l : list (string * string)) : string :=
  match l with
  | [] => ""
  | (k', v) :: l' => if String.eqb k k' then v else lookup_key k l'
  end.

Definition currentApiKey (r : Render) : string :=
  lookup_key (R.provider r) (R.apiKeys r).

(** ** The table [db.sections] *)

Module Db.

(** [db.sections.put(s)]: insert, or replace the row with the same key. *)
Fixpoint put (s : Section_) (t : list Section_) : list Section_ :=
  match t with
  | [] => [s]
  | x :: t' =>
      match String.compare (id s) (id x) with
      | Lt => s :: x :: t'
      | Eq => s :: t'
      | Gt => x :: put s t'
      end
  end.

(** [db.sections.delete(key)] *)
Definition delete (key : string) (t : list Section_) : list Section_ :=
  filter (fun x => negb (String.eqb (id x) key)) t.

(** [db.sections.where({ bookId }).delete()] *)
Definition delete_book (b : string) (t : list Section_) : list Section_ :=
  filter (fun x => negb (String.eqb (bookId x) b)) t.

(** [db.sections.where({ bookId })] *)
Definition where_book (b : string) (t : list Section_) : list Section_ :=
  filter (fun x => String.eqb (bookId x) b) t.

End Db.

(** ** Ordering by [order] *)

(** [.sort((a, b) => a.order - b.order)] and Dexie's [.sortBy('order')]:
    ascending, rows of equal [order] keep their relative position. *)
Fixpoint insert_by_order (s : Section_) (l : list Section_) : list Section_ :=
  match l with
  | [] => [s]
  | x :: l' =>
      if order s <=? order x then s :: l else x :: insert_by_order s l'
  end.

Definition sort_by_order (l : list Section_) : list Section_ :=
  fold_right insert_by_order [] l.

(** ** Derived values of a render *)

Definition blank_line : string := Js.nl ++ Js.nl.

(** The [accepted] memo. *)
Definition accepted_of (l : list Section_) : list Section_ :=
  sort_by_order (filter is_accepted l).

Definition accepted_memo (r : Render) : list Section_ :=
  accepted_of (R.sections r).

(** [l.map((s) => s.content).join('\n\n')] *)
Definition join_contents (l : list Section_) : string :=
  Js.join blank_line (map content l).

(** The [stitched] memo: the text shown, copied and downloaded. *)
Definition stitched (r : Render) : string :=
  join_contents (accepted_memo r).

(** ** Synchronous store operations *)

(** The argument of [updateSectionLocal]; an absent key is [None]. *)
Record Upd : Type := mkUpd {
  u_id : string;
  u_content : option string;
  u_heading : option string;
  u_status : option Status
}.

Definition or_default {A} (o : option A) (d : A) : A :=
  match o with
  | Some a => a
  | None => d
  end.

(** [{ ...s, ...upd, heading: upd.heading ?? parseHeading(upd.content ?? s.content) }] *)
Definition apply_upd_state (upd : Upd) (s : Section_) : Section_ :=
  mkSection (u_id upd) (bookId s)
            (or_default (u_content upd) (content s))
            (or_default (u_heading upd)
                        (parseHeading (or_default (u_content upd) (content s))))
            (or_default (u_status upd) (status s))
            (order s).

(** [db.sections.update(upd.id, upd)] on the row it finds: the keys present
    in [upd] are written, the others kept. *)
Definition apply_upd_row (upd : Upd) (s : Section_) : Section_ :=
  mkSection (u_id upd) (bookId s)
            (or_default (u_content upd) (content s))
            (or_default (u_heading upd) (heading s))
            (or_default (u_status upd) (status s))
            (order s).

Definition map_id (f : Section_ -> Section_) (key : string)
  (l : list Section_) : list Section_ :=
  map (fun s => if String.eqb (id s) key then f s else s) l.

Definition updateSectionLocal (upd : Upd) (w : World) : World :=
  set_db (map_id (apply_upd_row upd) (u_id upd))
    (setSections (map_id (apply_upd_state upd) (u_id upd)) w).

Definition discard (key : string) (w : World) : World :=
  updateSectionLocal (mkUpd key None None (Some discarded)) w.

Definition edit (key : string) (text : string) (w : World) : World :=
  updateSectionLocal (mkUpd key (Some text) None None) w.

(** The transcript renders the Accept and Discard buttons of a section
    under [s.status === 'draft' &&]. *)
Definition shows_decision_buttons (s : Section_) : bool :=
  Status_eqb (status s) draft.

(** [undoLast]: the index of the last accepted element, found on the
    reversed copy, and the list without it. *)
Fixpoint findIndex {A} (p : A -> bool) (l : list A) : option nat :=
  match l with
  | [] => None
  | x :: l' =>
      if p x then Some O
      else match findIndex p l' with
           | Some i => Some (S i)
           | None => None
           end
  end.

(** [copy.splice(idx, 1)]: the removed elements and what is left. *)
Definition splice1 {A} (idx : nat) (l : list A) : list A * list A :=
  (firstn 1 (skipn idx l), (firstn idx l ++ skipn (S idx) l)%list).

Definition undoLast (r : Render) (w : World) : World :=
  if negb (Js.nonempty (R.bookId r)) then w
  else
    let prev := R.sections (hooks w) in
    match findIndex is_accepted (rev prev) with
    | None => w
    | Some i =>
        let idx := (List.length prev - 1 - i)%nat in
        let '(popped, copy) := splice1 idx prev in
        match popped with
        | p :: _ => set_db (Db.delete (id p)) (setSections (fun _ => copy) w)
        | [] => setSections (fun _ => copy) w
        end
    end.

Definition clearRun (r : Render) (w : World) : World :=
  if negb (Js.nonempty (R.bookId r)) then w
  else set_db (Db.delete_book (R.bookId r)) (setSections (fun _ => []) w).

(** ** The generation cycle *)

Inductive Provider : Type :=
| OpenAI
| Anthropic
| Gemini.

(** The [if (provider === ...) ... else throw] chain of [generateNext]. *)
Definition provider_of (p : string) : option Provider :=
  if String.eqb p "openai" then Some OpenAI
  else if String.eqb p "anthropic" then Some Anthropic
  else if String.eqb p "google" then Some Gemini
  else None.

(** The arguments of [callOpenAI], [callAnthropic] or [callGemini]. *)
Record Request : Type := mkRequest {
  rq_provider : Provider;
  rq_apiKey : string;
  rq_model : string;
  rq_system : string;
  rq_user : string
}.

(** How the awaited provider call ends: the text it returns, or the error
    it throws ([`OpenAI error ${res.status}`], a failed [fetch], ...). *)
Inductive Completion : Type :=
| Returned (text : string)
| Thrown (message : string).

(** What [generateNext] does before it awaits the provider. *)
Inductive Entry : Type :=
| Refused (alert : string)
| Cancelled
| Unsupported (alert : string)
| Dispatched (rq : Request).

(** A callback handed to [setTimeout], with what it closes over. *)
Inductive Timer : Type :=
| AfterGenerate (r : Render) (hasStopToken : bool)
| AfterAccept (r : Render).

Definition delay (t : Timer) : Z :=
  match t with
  | AfterGenerate _ _ => 500
  | AfterAccept _ => 200
  end.

(** What [generateNext] does once the provider call has ended. *)
Inductive Settled : Type :=
| Appended (section : Section_) (timer : option Timer)
| Failed (alert : string).

(** What a timer callback does. *)
Inductive Check : Type :=
| Aborted
| Halted
| Continued (e : Entry).

Definition book_text_budget : nat := N.to_nat 100000.

Definition user_prompt (r : Render) (history : string) : string :=
  "Book Title: " ++ Js.or_else (R.title r) "(unknown)" ++ Js.nl ++
  "Author: " ++ Js.or_else (R.author r) "(unknown)" ++ Js.nl ++ Js.nl ++
  "Full book text (or extract):" ++ Js.nl ++
  Js.slice0 book_text_budget (R.bookText r) ++ Js.nl ++ Js.nl ++
  "Previously accepted sections (for continuity):" ++ Js.nl ++
  history ++ Js.nl ++ Js.nl ++
  "Generate the next section according to the protocol above. Then end if appropriate with the stop token: " ++
  R.stopToken r.

(** [(acceptedOverride ?? accepted).map((s) => s.content).join('\n\n')] *)
Definition history_of (r : Render) (acceptedOverride : option (list Section_))
  : string :=
  join_contents (or_default acceptedOverride (accepted_memo r)).

(** The [finally] block. *)
Definition finally (w : World) : World :=
  setShouldStop false (setIsBusy false w).

(** [generateNext(acceptedOverride)] up to the awaited provider call.  An
    unsupported provider throws inside the [try]: the [catch] alerts and the
    [finally] block runs. *)
Definition generateNext_enter (r : Render)
  (acceptedOverride : option (list Section_)) (w : World) : World * Entry :=
  if negb (Js.nonempty (R.bookId r)) then
    (w, Refused "Upload a book first")
  else if negb (Js.nonempty (currentApiKey r)) then
    (w, Refused "Paste your API key (stored locally)")
  else if R.shouldStop r then
    (setShouldStop false w, Cancelled)
  else
    let w1 := setIsBusy true w in
    let history := history_of r acceptedOverride in
    let system := R.prompt r in
    let user := user_prompt r history in
    match provider_of (R.provider r) with
    | Some p =>
        (w1, Dispatched (mkRequest p (currentApiKey r) (R.model r) system user))
    | None => (finally w1, Unsupported "Unsupported provider")
    end.

(** The status the new section gets. *)
Definition sectionStatus (r : Render) : Status :=
  let isFirstSection := (List.length (R.sections r) =? 0)%nat in
  if (R.autoAdvance r && negb isFirstSection)%bool then accepted else draft.

(** The object [generateNext] appends; [newId] is [crypto.randomUUID()]. *)
Definition new_section (r : Render) (newId text : string) : Section_ :=
  mkSection newId (R.bookId r) (Js.trim text) (parseHeading text)
            (sectionStatus r) (Z.of_nat (List.length (R.sections r)) + 1).

(** [generateNext] from the end of the provider call to its return. *)
Definition generateNext_settle (r : Render) (c : Completion) (newId : string)
  (w : World) : World * Settled :=
  match c with
  | Returned text =>
      let isFirstSection := (List.length (R.sections r) =? 0)%nat in
      let section := new_section r newId text in
      let w1 := setSections (fun prev => (prev ++ [section])%list) w in
      let w2 := set_db (Db.put section) w1 in
      let timer :=
        if (R.autoAdvance r && negb isFirstSection && negb (R.shouldStop r))%bool
        then
          let hasStopToken := Js.includes (Js.trim text) (R.stopToken r) in
          Some (AfterGenerate r hasStopToken)
        else None in
      (finally w2, Appended section timer)
  | Thrown message => (finally w, Failed message)
  end.

(** [db.sections.where({ bookId }).sortBy('order')] *)
Definition currentSections (r : Render) (w : World) : list Section_ :=
  sort_by_order (Db.where_book (R.bookId r) (db w)).

(** [l[l.length - 1]] *)
Definition last_of {A} (l : list A) : option A :=
  nth_error l (List.length l - 1).

(** The callback [generateNext] schedules; [shouldStop], [maxSections],
    [bookId] and the [generateNext] it calls are those of the render that
    made the running [generateNext]. *)
Definition check_after_generate (r : Render) (hasStopToken : bool) (w : World)
  : World * Check :=
  if R.shouldStop r then (w, Aborted)
  else
    let acceptedCount := List.length (filter is_accepted (currentSections r w)) in
    if (negb hasStopToken && Js.count_lt acceptedCount (R.maxSections r))%bool
    then
      let '(w', e) := generateNext_enter r None w in (w', Continued e)
    else (setAutoAdvance false w, Halted).

(** The callback [accept] schedules. *)
Definition check_after_accept (r : Render) (w : World) : World * Check :=
  if R.shouldStop r then (w, Aborted)
  else
    let acceptedSections :=
      sort_by_order (filter is_accepted (currentSections r w)) in
    let acceptedCount := List.length acceptedSections in
    match last_of (currentSections r w) with
    | Some lastSection =>
        if (negb (Js.includes (content lastSection) (R.stopToken r))
            && Js.count_lt acceptedCount (R.maxSections r))%bool
        then
          let '(w', e) := generateNext_enter r (Some acceptedSections) w in
          (w', Continued e)
        else (setAutoAdvance false w, Halted)
    | None => (setAutoAdvance false w, Halted)
    end.

Definition run_timer (t : Timer) (w : World) : World * Check :=
  match t with
  | AfterGenerate r hasStopToken => check_after_generate r hasStopToken w
  | AfterAccept r => check_after_accept r w
  end.

(** [accept(id)] up to its return. *)
Definition accept (r : Render) (key : string) (w : World)
  : World * option Timer :=
  let w1 := updateSectionLocal (mkUpd key None None (Some accepted)) w in
  if (R.autoAdvance r && negb (R.isBusy r) && negb (R.shouldStop r))%bool
  then (w1, Some (AfterAccept r))
  else (w1, None).

(** ** The buttons that reach [generateNext] *)

(** The Start / Next button: [disabled={isBusy}], else
    [setAutoAdvance(false); generateNext()]. *)
Definition click_next (r : Render) (w : World) : World * option Entry :=
  if R.isBusy r then (w, None)
  else
    let '(w', e) := generateNext_enter r None (setAutoAdvance false w) in
    (w', Some e).

(** The Auto advance button: [disabled={isBusy}], else
    [setAutoAdvance(true); generateNext()]. *)
Definition click_auto (r : Render) (w : World) : World * option Entry :=
  if R.isBusy r then (w, None)
  else
    let '(w', e) := generateNext_enter r None (setAutoAdvance true w) in
    (w', Some e).

(** The Stop Process button, rendered under [(isBusy || autoAdvance) &&]:
    [setShouldStop(true); setAutoAdvance(false)]. *)
Definition click_stop (r : Render) (w : World) : World :=
  if (R.isBusy r || R.autoAdvance r)%bool
  then setAutoAdvance false (setShouldStop true w)
  else w.

(** ** The event loop *)

(** The component between two events: the live cells, the [generateNext]
    invocations that await their provider (each with the render that made
    it) and the pending [setTimeout] callbacks, oldest first. *)
Record Sys : Type := mkSys {
  world : World;
  inflight : list Render;
  timers : list Timer
}.

Inductive Event : Type :=
| ClickNext
| ClickAuto
| ClickStop
| ClickAccept (key : string)
| ClickDiscard (key : string)
| Edit (key text : string)
| ClickUndo
| ClickClear
| Answer (i : nat) (c : Completion) (newId : string)
| Fire (i : nat).

Definition dispatched (e : Entry) : bool :=
  match e with
  | Dispatched _ => true
  | _ => false
  end.

Definition issues_request (c : Check) : bool :=
  match c with
  | Continued e => dispatched e
  | _ => false
  end.

Definition timer_render (t : Timer) : Render :=
  match t with
  | AfterGenerate r _ => r
  | AfterAccept r => r
  end.

(** The transcript shows a draft with this [id], hence its Accept and
    Discard buttons. *)
Definition draft_shown (r : Render) (key : string) : bool :=
  existsb (fun s => (String.eqb (id s) key && shows_decision_buttons s)%bool)
          (R.sections r).

Definition option_list {A} (o : option A) : list A :=
  match o with
  | Some a => [a]
  | None => []
  end.

Definition remove_nth {A} (i : nat) (l : list A) : list A :=
  (firstn i l ++ skipn (S i) l)%list.

(** One event.  A click is handled by the closures of the latest render;
    [Answer i] ends the [i]-th awaited provider call and [Fire i] runs the
    [i]-th pending timer callback.  The second component is the ordinal
    given to a section appended by the event. *)
Definition step (s : Sys) (e : Event) : Sys * option Z :=
  let w := world s in
  let r := render w in
  match e with
  | ClickNext =>
      match click_next r w with
      | (w', Some (Dispatched _)) =>
          (mkSys w' (inflight s ++ [r]) (timers s), None)
      | (w', _) => (mkSys w' (inflight s) (timers s), None)
      end
  | ClickAuto =>
      match click_auto r w with
      | (w', Some (Dispatched _)) =>
          (mkSys w' (inflight s ++ [r]) (timers s), None)
      | (w', _) => (mkSys w' (inflight s) (timers s), None)
      end
  | ClickStop => (mkSys (click_stop r w) (inflight s) (timers s), None)
  | ClickAccept key =>
      if draft_shown r key then
        let '(w', t) := accept r key w in
        (mkSys w' (inflight s) (timers s ++ option_list t), None)
      else (s, None)
  | ClickDiscard key =>
      if draft_shown r key then
        (mkSys (discard key w) (inflight s) (timers s), None)
      else (s, None)
  | Edit key text => (mkSys (edit key text w) (inflight s) (timers s), None)
  | ClickUndo => (mkSys (undoLast r w) (inflight s) (timers s), None)
  | ClickClear => (mkSys (clearRun r w) (inflight s) (timers s), None)
  | Answer i c newId =>
      match nth_error (inflight s) i with
      | None => (s, None)
      | Some r0 =>
          let rest := remove_nth i (inflight s) in
          match generateNext_settle r0 c newId w with
          | (w', Appended sec t) =>
              (mkSys w' rest (timers s ++ option_list t), Some (order sec))
          | (w', Failed _) => (mkSys w' rest (timers s), None)
          end
      end
  | Fire i =>
      match nth_error (timers s) i with
      | None => (s, None)
      | Some t =>
          let '(w', c) := run_timer t w in
          (mkSys w'
                 (if issues_request c then inflight s ++ [timer_render t]
                  else inflight s)
                 (remove_nth i (timers s)), None)
      end
  end.

(** The state after a sequence of events and the ordinals assigned on the
    way, oldest first. *)
Fixpoint run (s : Sys) (es : list Event) : Sys * list Z :=
  match es with
  | [] => (s, [])
  | e :: es' =>
      let '(s1, o) := step s e in
      let '(s2, l) := run s1 es' in
      (s2, (option_list o ++ l)%list)
  end.

(** [n] rounds of Start / Next, each answered before the next click. *)
Fixpoint manual_rounds (answers : list (string * string)) : list Event :=
  match answers with
  | [] => []
  | (newId, text) :: rest =>
      ClickNext :: Answer 0 (Returned text) newId :: manual_rounds rest
  end.

(** A state in which a click on Start / Next sends a request. *)
Definition ready (r : Render) : Prop :=
  Js.nonempty (R.bookId r) = true /\
  Js.nonempty (currentApiKey r) = true /\
  provider_of (R.provider r) <> None.

(** Nothing awaits, nothing is scheduled, and the flags are clear. *)
Definition quiet (s : Sys) : Prop :=
  inflight s = [] /\ timers s = [] /\
  R.isBusy (hooks (world s)) = false /\
  R.shouldStop (hooks (world s)) = false /\
  R.autoAdvance (hooks (world s)) = false.

(** ** Readings used in the statements *)

Definition order_le (a b : Section_) : Prop := order a <= order b.

(** The number of accepted rows of the book in the table. *)
Definition acceptedCount (r : Render) (w : World) : nat :=
  List.length (filter is_accepted (currentSections r w)).

(** The timer callbacks a run of the code can hand to [setTimeout]. *)
Inductive scheduled : Timer -> Prop :=
| scheduled_by_generateNext r c newId w w' s t :
    generateNext_settle r c newId w = (w', Appended s (Some t)) ->
    scheduled t
| scheduled_by_accept r key w w' t :
    accept r key w = (w', Some t) ->
    scheduled t.

(** ** Sample states *)

Module Sample.

Definition stop : string := "<end_of_book>".

Definition sec (key text : string) (st : Status) (n : Z) : Section_ :=
  mkSection key "book-1" text (parseHeading text) st n.

(** A loaded book with a key set, the given flags, the section list [l] in
    memory and the rows [t] in the table. *)
Definition state (auto busy stopping : bool) (l t : list Section_) : World :=
  mkWorld
    (R.mk "book-1" "Walden" "" "I went to the woods" "Your Mission" "openai"
          "gpt-4o-mini" [("openai", "sk-1")] auto (Js.Int 12) stop
          busy stopping l)
    t.

(** Nothing generated yet. *)
Definition fresh : Sys := mkSys (state false false false [] []) [] [].

(** Auto advance is clicked, the first section comes back as a draft and
    is accepted; the callback of [accept] is pending. *)
Definition first_accepted : list Event :=
  [ClickAuto; Answer 0 (Returned "one") "a"; ClickAccept "a"].

(** The callback runs and asks for a second section, which comes back and
    is accepted at once; the callback of [generateNext] is pending. *)
Definition second_appended : list Event :=
  (first_accepted ++ [Fire 0; Answer 0 (Returned "two") "b"])%list.

(** Two sections are generated and accepted by hand, the second is undone,
    a third is generated. *)
Definition undo_then_next : list Event :=
  [ClickNext; Answer 0 (Returned "one") "a"; ClickAccept "a";
   ClickNext; Answer 0 (Returned "two") "b"; ClickAccept "b";
   ClickUndo;
   ClickNext; Answer 0 (Returned "three") "c"].

End Sample.

(** ** Readings used in the further properties *)

(** The state of a session in which Auto advance was never clicked: no
    timer is pending, auto-advance is off in the state and in every render
    that awaits a provider, and the busy flag is set exactly when one
    request is awaited. *)
Definition manual_mode (s : Sys) : Prop :=
  timers s = [] /\
  R.autoAdvance (hooks (world s)) = false /\
  Forall (fun r => R.autoAdvance r = false) (inflight s) /\
  (inflight s = [] /\ R.isBusy (hooks (world s)) = false \/
   exists r, inflight s = [r] /\ R.isBusy (hooks (world s)) = true).

Definition is_ClickAuto (e : Event) : bool :=
  match e with
  | ClickAuto => true
  | _ => false
  end.

(** A string that neither starts nor ends with white space. *)
Definition trimmed (s : string) : Prop :=
  match Js.chars s with
  | [] => True
  | c :: _ => Js.is_space c = false
  end /\
  match rev (Js.chars s) with
  | [] => True
  | c :: _ => Js.is_space c = false
  end.

(** What the list and the table both record of a section: all its fields
    but the heading. *)
Definition core (s : Section_) : string * string * string * Status * Z :=
  (id s, bookId s, content s, status s, order s).

(** Every section of the in-memory list has a row in the table with the
    same [id], [bookId], content, status and [order]. *)
Definition stored (w : World) : Prop :=
  forall s, In s (R.sections (hooks w)) ->
            exists row, In row (db w) /\ core row = core s.

(** ** File names and keys *)

Module Names.
Import Js.

Definition is_dot (c : ascii) : bool := Ascii.eqb c "."%char.

Definition not_dot (c : ascii) : bool := negb (is_dot c).

(** [/[_-]/] *)
Definition is_dash (c : ascii) : bool :=
  (Ascii.eqb c "_"%char || Ascii.eqb c "-"%char)%bool.

(** [.replace(/\.[^.]+$/, '')]: the last dot and what follows it go, unless
    nothing follows it. *)
Definition strip_extension (l : list ascii) : list ascii :=
  match takeWhile not_dot (rev l), dropWhile not_dot (rev l) with
  | _ :: _, _ :: before => rev before
  | _, _ => l
  end.

(** [.replace(/P+/g, rep)] for a character class [P]: every maximal run of
    characters of the class becomes one [rep]; [in_run] tells whether the
    previous character was in the class. *)
Fixpoint collapse (p : ascii -> bool) (rep : ascii) (in_run : bool)
  (l : list ascii) : list ascii :=
  match l with
  | [] => []
  | c :: l' =>
      if p c then
        if in_run then collapse p rep true l'
        else rep :: collapse p rep true l'
      else c :: collapse p rep false l'
  end.

Definition is_b (c : ascii) : bool :=
  (Ascii.eqb c "b"%char || Ascii.eqb c "B"%char)%bool.

Definition is_y (c : ascii) : bool :=
  (Ascii.eqb c "y"%char || Ascii.eqb c "Y"%char)%bool.

(** A match of [/\s+by\s+/i] that starts at the head of [l]: its length. *)
Definition by_match (l : list ascii) : option nat :=
  match takeWhile is_space l with
  | [] => None
  | w1 =>
      match dropWhile is_space l with
      | b :: y :: rest =>
          if (is_b b && is_y y)%bool then
            match takeWhile is_space rest with
            | [] => None
            | w2 => Some (List.length w1 + 2 + List.length w2)%nat
            end
          else None
      | _ => None
      end
  end.

Fixpoint starts_with (sep l : list ascii) : bool :=
  match sep, l with
  | [], _ => true
  | a :: sep', b :: l' => (Ascii.eqb a b && starts_with sep' l')%bool
  | _ :: _, [] => false
  end.

(** A match of a non-empty string separator at the head of [l]. *)
Definition str_match (sep l : list ascii) : option nat :=
  if starts_with sep l then Some (List.length sep) else None.

(** [s.split(separator)] for a separator that matches no empty string:
    [sep_match] gives the length of a match at the head of the rest.  A
    match closes the piece being read and its characters are skipped; the
    end of the text closes the last piece. *)
Fixpoint split_on (sep_match : list ascii -> option nat) (skip : nat)
  (piece : list ascii) (l : list ascii) : list (list ascii) :=
  match l with
  | [] => [rev piece]
  | c :: l' =>
      match skip with
      | S k => split_on sep_match k piece l'
      | O =>
          match sep_match l with
          | Some n => rev piece :: split_on sep_match (n - 1) [] l'
          | None => split_on sep_match 0 (c :: piece) l'
          end
      end
  end.

Definition split_by (l : list ascii) : list (list ascii) :=
  split_on by_match 0 [] l.

Definition split_dash (l : list ascii) : list (list ascii) :=
  split_on (str_match (chars " - ")) 0 [] l.

(** The [base] of [inferMetadataFromFilename]. *)
Definition base_of (name : string) : list ascii :=
  trim_chars (collapse is_dash " "%char false (strip_extension (chars name))).

Record Metadata : Type := mkMetadata {
  meta_title : string;
  meta_author : string
}.

Definition inferMetadataFromFilename (name : string) : Metadata :=
  let base := base_of name in
  match split_by base with
  | [t; a] => mkMetadata (str (trim_chars t)) (str (trim_chars a))
  | _ =>
      match split_dash base with
      | [t; a] => mkMetadata (str (trim_chars t)) (str (trim_chars a))
      | _ => mkMetadata (str base) ""
      end
  end.

(** [s.toLowerCase()] on ASCII letters; other characters are kept. *)
Definition is_upper (c : ascii) : bool :=
  let n := nat_of_ascii c in ((65 <=? n)%nat && (n <=? 90)%nat)%bool.

Definition lower_char (c : ascii) : ascii :=
  if is_upper c then ascii_of_nat (nat_of_ascii c + 32) else c.

Definition toLowerCase (l : list ascii) : list ascii := map lower_char l.

Inductive Ext : Type :=
| md
| txt.

Definition ext_name (e : Ext) : string :=
  match e with
  | md => "md"
  | txt => "txt"
  end.

(** The [type] of the blob [download] builds. *)
Definition mime (e : Ext) : string :=
  match e with
  | md => "text/markdown"
  | txt => "text/plain"
  end.

(** The [a.download] name of [download]. *)
Definition download_name (title : string) (e : Ext) : string :=
  str (collapse is_space "-"%char false
         (toLowerCase (chars (or_else title "distillation"))))
  ++ "." ++ ext_name e.

(** How [onUpload] reads a file. *)
Inductive Reader : Type :=
| ReadPdf
| ReadEpub
| ReadText.

(** [(f.name.split('.').pop() || '').toLowerCase()] *)
Definition extension (name : string) : string :=
  str (toLowerCase (rev (takeWhile not_dot (rev (chars name))))).

(** The [if] chain of [onUpload]; [None] is the thrown
    [Unsupported file type (use PDF/EPUB/TXT/MD)]. *)
Definition reader_of (name : string) : option Reader :=
  let ext := extension name in
  if String.eqb ext "pdf" then Some ReadPdf
  else if String.eqb ext "epub" then Some ReadEpub
  else if (String.eqb ext "txt" || String.eqb ext "md"
           || String.eqb ext "markdown")%bool then Some ReadText
  else None.

(** The text [extractTextFromPDF] builds from the [str] of the items of
    each page. *)
Definition pdf_text (pages : list (list string)) : string :=
  trim (String.concat ""
          (map (fun items => join " " items ++ nl ++ nl) pages)).

End Names.

(** [{ ...apiKeys, [provider]: key }]: the entry of the provider is
    replaced where it stands, or added at the end. *)
Fixpoint set_key (k v : string) (l : list (string * string))
  : list (string * string) :=
  match l with
  | [] => [(k, v)]
  | (k', v') :: l' =>
      if String.eqb k k' then (k, v) :: l' else (k', v') :: set_key k v l'
  end.

Definition setApiKeys (ks : list (string * string)) (w : World) : World :=
  let h := hooks w in
  mkWorld
    (R.mk (R.bookId h) (R.title h) (R.author h) (R.bookText h) (R.prompt h)
          (R.provider h) (R.model h) ks (R.autoAdvance h)
          (R.maxSections h) (R.stopToken h) (R.isBusy h) (R.shouldStop h)
          (R.sections h))
    (db w).

Definition setProvider (p : string) (w : World) : World :=
  let h := hooks w in
  mkWorld
    (R.mk (R.bookId h) (R.title h) (R.author h) (R.bookText h) (R.prompt h)
          p (R.model h) (R.apiKeys h) (R.autoAdvance h)
          (R.maxSections h) (R.stopToken h) (R.isBusy h) (R.shouldStop h)
          (R.sections h))
    (db w).

Definition setBookText (t : string) (w : World) : World :=
  let h := hooks w in
  mkWorld
    (R.mk (R.bookId h) (R.title h) (R.author h) t (R.prompt h)
          (R.provider h) (R.model h) (R.apiKeys h) (R.autoAdvance h)
          (R.maxSections h) (R.stopToken h) (R.isBusy h) (R.shouldStop h)
          (R.sections h))
    (db w).

(** [setCurrentApiKey(key)] *)
Definition setCurrentApiKey (r : Render) (key : string) (w : World) : World :=
  setApiKeys (set_key (R.provider r) key (R.apiKeys r)) w.

(** A string of [n] copies of [c]. *)
Fixpoint replicate (n : nat) (c : ascii) : string :=
  match n with
  | O => EmptyString
  | S n' => String c (replicate n' c)
  end.

(** * Properties *)

(** ** The setters *)

Section Setters.
Variable w : World.

Lemma sections_setSections f :
  R.sections (hooks (setSections f w)) = f (R.sections (hooks w)).
Proof. reflexivity. Qed.

Lemma sections_set_db f : R.sections (hooks (set_db f w)) = R.sections (hooks w).
Proof. reflexivity. Qed.

Lemma sections_finally : R.sections (hooks (finally w)) = R.sections (hooks w).
Proof. reflexivity. Qed.

End Setters.

(** The branches of [generateNext] before the provider call. *)
Ltac enter_cases r :=
  unfold generateNext_enter;
  destruct (negb (Js.nonempty (R.bookId r)));
  [|destruct (negb (Js.nonempty (currentApiKey r)));
    [|destruct (R.shouldStop r);
      [|destruct (provider_of (R.provider r))]]].

Lemma Status_eqb_spec (a b : Status) : reflect (a = b) (Status_eqb a b).
Proof. destruct a, b; constructor; congruence. Qed.

Lemma is_accepted_true (s : Section_) :
  is_accepted s = true <-> status s = accepted.
Proof. unfold is_accepted. destruct (Status_eqb_spec (status s) accepted); intuition congruence. Qed.

(** ** The table *)

Lemma put_In (s : Section_) (t : list Section_) : In s (Db.put s t).
Proof.
  induction t as [|x t IH]; simpl.
  - now left.
  - destruct (String.compare (id s) (id x)); simpl; auto.
Qed.

(** ** Sorting by [order] *)

Lemma insert_by_order_perm (s : Section_) (l : list Section_) :
  Permutation (s :: l) (insert_by_order s l).
Proof.
  induction l as [|x l IH]; simpl.
  - apply Permutation_refl.
  - destruct (order s <=? order x).
    + apply Permutation_refl.
    + eapply perm_trans; [apply perm_swap|].
      now apply perm_skip.
Qed.

Lemma sort_by_order_perm (l : list Section_) : Permutation l (sort_by_order l).
Proof.
  induction l as [|x l IH]; simpl.
  - constructor.
  - eapply perm_trans; [|apply insert_by_order_perm].
    now apply perm_skip.
Qed.

Lemma sort_by_order_length (l : list Section_) :
  List.length (sort_by_order l) = List.length l.
Proof. symmetry. apply Permutation_length, sort_by_order_perm. Qed.

Lemma insert_by_order_sorted (s : Section_) (l : list Section_) :
  StronglySorted order_le l -> StronglySorted order_le (insert_by_order s l).
Proof.
  induction 1 as [|x l Hs IH Hx]; simpl.
  - repeat constructor.
  - destruct (order s <=? order x) eqn:E.
    + apply Z.leb_le in E.
      constructor; [now constructor|].
      constructor; [exact E|].
      eapply Forall_impl; [|exact Hx].
      unfold order_le; intros; lia.
    + apply Z.leb_gt in E.
      constructor; [exact IH|].
      eapply Permutation_Forall; [apply insert_by_order_perm|].
      constructor; [unfold order_le; lia|exact Hx].
Qed.

Lemma sort_by_order_sorted (l : list Section_) :
  StronglySorted order_le (sort_by_order l).
Proof.
  induction l as [|x l IH]; simpl.
  - constructor.
  - now apply insert_by_order_sorted.
Qed.

Lemma sort_by_order_In (s : Section_) (l : list Section_) :
  In s (sort_by_order l) <-> In s l.
Proof.
  split; apply Permutation_in;
    [apply Permutation_sym|]; apply sort_by_order_perm.
Qed.

Lemma accepted_of_perm (l : list Section_) :
  Permutation (accepted_of l) (filter is_accepted l).
Proof. apply Permutation_sym, sort_by_order_perm. Qed.

Lemma accepted_of_all_accepted (l : list Section_) :
  Forall (fun s => In s l /\ status s = accepted) (accepted_of l).
Proof.
  apply Forall_forall. intros s Hs.
  apply sort_by_order_In, filter_In in Hs.
  destruct Hs as [Hin Hacc]. split; [exact Hin|].
  now apply is_accepted_true.
Qed.

(** ** The cycle after the provider call *)

Lemma settle_returned (r : Render) (text newId : string) (w : World) :
  exists t,
    generateNext_settle r (Returned text) newId w =
    (finally (set_db (Db.put (new_section r newId text))
                (setSections (fun prev => (prev ++ [new_section r newId text])%list) w)),
     Appended (new_section r newId text) t).
Proof. simpl. eexists. reflexivity. Qed.




(** C7.  When the provider call fails, [generateNext] reports the error and
    returns with the busy flag and the cancellation flag cleared, the
    section list and the table as they were, the auto-advance flag as it
    was, and no timer scheduled: the event leaves the pending timers
    untouched and assigns no ordinal.  An unsupported provider, thrown
    before any call, ends the same way. *)
Theorem provider_failure_cleanup (r : Render) (message newId : string)
  (w : World) (s : Sys) (i : nat) (o : option (list Section_)) :
  let w' := fst (generateNext_settle r (Thrown message) newId w) in
  snd (generateNext_settle r (Thrown message) newId w) = Failed message /\
  R.isBusy (hooks w') = false /\
  R.shouldStop (hooks w') = false /\
  R.sections (hooks w') = R.sections (hooks w) /\
  db w' = db w /\
  R.autoAdvance (hooks w') = R.autoAdvance (hooks w) /\
  timers (fst (step s (Answer i (Thrown message) newId))) = timers s /\
  snd (step s (Answer i (Thrown message) newId)) = None /\
  (forall alert,
     snd (generateNext_enter r o w) = Unsupported alert ->
     fst (generateNext_enter r o w) = finally (setIsBusy true w)).
Proof.
  cbn zeta. repeat split.
  - cbn [step]. destruct (nth_error (inflight s) i); reflexivity.
  - cbn [step]. destruct (nth_error (inflight s) i); reflexivity.
  - intros alert. enter_cases r; (discriminate || reflexivity).
Qed.

Lemma provider_failure_cleanup_witness :
  fst (generateNext_enter
         (R.mk "book-1" "" "" "" "" "mistral" "" [("mistral", "k")] false
               (Js.Int 12) Sample.stop false false [])
         None (Sample.state false false false [] []))
  = finally (setIsBusy true (Sample.state false false false [] [])).
Proof.
  apply (provider_failure_cleanup
           (R.mk "book-1" "" "" "" "" "mistral" "" [("mistral", "k")] false
                 (Js.Int 12) Sample.stop false false [])
           "" "" (Sample.state false false false [] []) Sample.fresh 0 None)
    with (alert := "Unsupported provider").
  reflexivity.
Defined.

(** ** Assembled text *)

Lemma enter_dispatched_user (r : Render) (o : option (list Section_))
  (w w' : World) (rq : Request) :
  generateNext_enter r o w = (w', Dispatched rq) ->
  w' = setIsBusy true w /\ rq_user rq = user_prompt r (history_of r o).
Proof.
  enter_cases r; try discriminate.
  intros H. injection H as <- <-. split; reflexivity.
Qed.

(** C9.  The text [generateNext] embeds as history and the stitched text
    that is shown, copied and downloaded are the contents of a list [acc]
    joined by a blank line, where [acc] holds exactly the accepted sections
    (a permutation of them, so no draft or discarded section is in it) in
    ascending [order]; with no accepted section the text is empty.  The
    sections are those of the render for [stitched] and for a
    [generateNext] called without argument, and the rows of the book in
    the table when [accept]'s callback passes them. *)
Theorem assembled_text_is_accepted_in_order (l : list Section_) :
  let acc := accepted_of l in
  let text := Js.join (String Js.LF (String Js.LF EmptyString)) (map content acc) in
  Permutation acc (filter is_accepted l) /\
  StronglySorted order_le acc /\
  Forall (fun s => In s l /\ status s = accepted) acc /\
  (forall r, R.sections r = l ->
     stitched r = text /\
     forall w w' rq,
       generateNext_enter r None w = (w', Dispatched rq) ->
       rq_user rq = user_prompt r text) /\
  (forall r w w' rq,
     currentSections r w = l ->
     check_after_accept r w = (w', Continued (Dispatched rq)) ->
     rq_user rq = user_prompt r text) /\
  (filter is_accepted l = [] -> text = "").
Proof.
  cbn zeta.
  split; [apply accepted_of_perm|].
  split; [apply sort_by_order_sorted|].
  split; [apply accepted_of_all_accepted|].
  split; [|split].
  - intros r <-. split; [reflexivity|].
    intros w w' rq H. now apply enter_dispatched_user in H.
  - intros r w w' rq <-. unfold check_after_accept.
    destruct (R.shouldStop r); [discriminate|].
    destruct (last_of (currentSections r w)) as [ls|]; [|discriminate].
    destruct (negb (Js.includes (content ls) (R.stopToken r))
              && Js.count_lt _ (R.maxSections r))%bool; [|discriminate].
    destruct (generateNext_enter r _ w) as [w1 e] eqn:E.
    intros H. injection H as <- ->.
    now apply enter_dispatched_user in E.
  - unfold accepted_of. intros ->. reflexivity.
Qed.

Lemma assembled_text_is_accepted_in_order_witness :
  stitched (hooks (Sample.state false false false
                     [Sample.sec "b" "two" accepted 2;
                      Sample.sec "x" "no" discarded 3;
                      Sample.sec "a" "one" accepted 1;
                      Sample.sec "d" "pending" draft 4] []))
  = String.append "one" (String Js.LF (String Js.LF "two")) /\
  Js.join (String Js.LF (String Js.LF EmptyString))
    (map content (accepted_of [Sample.sec "d" "pending" draft 1])) = "".
Proof.
  split.
  - apply (assembled_text_is_accepted_in_order
             [Sample.sec "b" "two" accepted 2;
              Sample.sec "x" "no" discarded 3;
              Sample.sec "a" "one" accepted 1;
              Sample.sec "d" "pending" draft 4]).
    reflexivity.
  - apply (assembled_text_is_accepted_in_order
             [Sample.sec "d" "pending" draft 1]).
    reflexivity.
Defined.

(** ** Edits *)

Lemma nth_error_map_id (f : Section_ -> Section_) (key : string)
  (l : list Section_) (i : nat) (s : Section_) :
  nth_error l i = Some s ->
  nth_error (map_id f key l) i
  = Some (if String.eqb (id s) key then f s else s).
Proof.
  intros H. unfold map_id. rewrite nth_error_map, H. reflexivity.
Qed.

(** C10.  [edit(id, text)] keeps the length of the section list and of the
    table and every flag.  In the list, a section whose [id] is the given
    one gets [text] as content and [parseHeading(text)] as heading and
    keeps its [id], [bookId], [status] and [order]; every other section is
    unchanged.  In the table the row with that [id] gets [text] as content
    and keeps its other fields; every other row is unchanged. *)
Theorem edit_changes_content_and_heading_only (key text : string) (w : World) :
  List.length (R.sections (hooks (edit key text w)))
    = List.length (R.sections (hooks w)) /\
  List.length (db (edit key text w)) = List.length (db w) /\
  R.autoAdvance (hooks (edit key text w)) = R.autoAdvance (hooks w) /\
  R.isBusy (hooks (edit key text w)) = R.isBusy (hooks w) /\
  R.shouldStop (hooks (edit key text w)) = R.shouldStop (hooks w) /\
  (forall i s,
     nth_error (R.sections (hooks w)) i = Some s ->
     exists s',
       nth_error (R.sections (hooks (edit key text w))) i = Some s' /\
       id s' = id s /\ bookId s' = bookId s /\
       status s' = status s /\ order s' = order s /\
       (id s = key -> content s' = text /\ heading s' = parseHeading text) /\
       (id s <> key -> s' = s)) /\
  (forall i s,
     nth_error (db w) i = Some s ->
     exists s',
       nth_error (db (edit key text w)) i = Some s' /\
       id s' = id s /\ bookId s' = bookId s /\ heading s' = heading s /\
       status s' = status s /\ order s' = order s /\
       (id s = key -> content s' = text) /\
       (id s <> key -> s' = s)).
Proof.
  unfold edit, updateSectionLocal.
  cbn [hooks db set_db setSections R.sections R.autoAdvance R.isBusy
       R.shouldStop u_id].
  split; [apply length_map|].
  split; [apply length_map|].
  do 3 (split; [reflexivity|]).
  split; intros i s H; rewrite (nth_error_map_id _ _ _ _ _ H);
    destruct (String.eqb_spec (id s) key) as [E|E];
    eexists; (split; [reflexivity|]); cbn;
    repeat split; (congruence || auto).
Qed.

Lemma edit_changes_content_and_heading_only_witness :
  exists s',
    nth_error
      (R.sections
         (hooks (edit "a" "# New"
                   (Sample.state false false false
                      [Sample.sec "a" "old" draft 1;
                       Sample.sec "b" "two" accepted 2] [])))) 0
    = Some s' /\
    id s' = "a" /\ bookId s' = "book-1" /\ status s' = draft /\ order s' = 1 /\
    ("a" = "a" -> content s' = "# New" /\ heading s' = parseHeading "# New") /\
    ("a" <> "a" -> s' = Sample.sec "a" "old" draft 1).
Proof.
  destruct (edit_changes_content_and_heading_only "a" "# New"
              (Sample.state false false false
                 [Sample.sec "a" "old" draft 1;
                  Sample.sec "b" "two" accepted 2] []))
    as (_ & _ & _ & _ & _ & H & _).
  apply (H 0%nat (Sample.sec "a" "old" draft 1)).
  reflexivity.
Defined.

(** ** The continuation checks *)

Lemma entry_ignores_world (r : Render) (o : option (list Section_))
  (w w' : World) :
  snd (generateNext_enter r o w) = snd (generateNext_enter r o w').
Proof. enter_cases r; reflexivity. Qed.

Lemma enter_ready (r : Render) (o : option (list Section_)) (w : World) :
  ready r -> R.shouldStop r = false ->
  exists rq, generateNext_enter r o w = (setIsBusy true w, Dispatched rq).
Proof.
  intros (Hb & Hk & Hp) Hs. unfold generateNext_enter.
  rewrite Hb, Hk, Hs. cbn [negb].
  destruct (provider_of (R.provider r)); [|congruence].
  eexists. reflexivity.
Qed.

Lemma settle_scheduled (r : Render) (c : Completion) (newId : string)
  (w w' : World) (s : Section_) (t : Timer) :
  generateNext_settle r c newId w = (w', Appended s (Some t)) ->
  exists text,
    c = Returned text /\ s = new_section r newId text /\
    t = AfterGenerate r (Js.includes (content s) (R.stopToken r)) /\
    R.shouldStop r = false /\ sectionStatus r = accepted.
Proof.
  destruct c as [text|message]; cbn [generateNext_settle]; [|discriminate].
  unfold sectionStatus.
  destruct (R.autoAdvance r && negb (List.length (R.sections r) =? 0)%nat)%bool;
    cbn [andb]; [|discriminate].
  destruct (R.shouldStop r); cbn [negb]; [discriminate|].
  intros H. injection H as _ <- <-.
  exists text. repeat split.
Qed.

Lemma accept_scheduled (r : Render) (key : string) (w w' : World) (t : Timer) :
  accept r key w = (w', Some t) ->
  t = AfterAccept r /\ R.shouldStop r = false /\
  R.isBusy r = false /\ R.autoAdvance r = true.
Proof.
  unfold accept.
  destruct (R.autoAdvance r), (R.isBusy r), (R.shouldStop r);
    cbn [andb negb]; try discriminate.
  intros H. injection H as _ <-. repeat split.
Qed.

(** The [shouldStop] a scheduled callback tests is the constant of the
    render that scheduled it, which was false then. *)
Lemma scheduled_not_stopping (t : Timer) :
  scheduled t -> R.shouldStop (timer_render t) = false.
Proof.
  intros [r c newId w w' s t' H|r key w w' t' H].
  - apply settle_scheduled in H. destruct H as (text & _ & _ & -> & Hs & _).
    exact Hs.
  - apply accept_scheduled in H. destruct H as (-> & Hs & _). exact Hs.
Qed.

Lemma scheduled_check_never_aborts (t : Timer) (w : World) :
  scheduled t -> snd (run_timer t w) <> Aborted.
Proof.
  intros H. apply scheduled_not_stopping in H.
  destruct t as [r h|r]; cbn [run_timer timer_render] in *.
  - unfold check_after_generate. rewrite H.
    destruct (negb h && _)%bool; [|discriminate].
    destruct (generateNext_enter r None w). discriminate.
  - unfold check_after_accept. rewrite H.
    destruct (last_of (currentSections r w)); [|discriminate].
    destruct (negb _ && _)%bool; [|discriminate].
    destruct (generateNext_enter r _ w). discriminate.
Qed.

Lemma check_after_generate_eq (r : Render) (h : bool) (w : World) :
  R.shouldStop r = false ->
  check_after_generate r h w =
  if (negb h && Js.count_lt (acceptedCount r w) (R.maxSections r))%bool
  then (fst (generateNext_enter r None w),
        Continued (snd (generateNext_enter r None w)))
  else (setAutoAdvance false w, Halted).
Proof.
  intros H. unfold check_after_generate, acceptedCount. rewrite H.
  destruct (negb h && _)%bool; [|reflexivity].
  destruct (generateNext_enter r None w). reflexivity.
Qed.

Lemma check_after_accept_eq (r : Render) (w : World) :
  R.shouldStop r = false ->
  check_after_accept r w =
  match last_of (currentSections r w) with
  | Some lastSection =>
      if (negb (Js.includes (content lastSection) (R.stopToken r))
          && Js.count_lt (acceptedCount r w) (R.maxSections r))%bool
      then (fst (generateNext_enter r
                   (Some (accepted_of (currentSections r w))) w),
            Continued (snd (generateNext_enter r
                   (Some (accepted_of (currentSections r w))) w)))
      else (setAutoAdvance false w, Halted)
  | None => (setAutoAdvance false w, Halted)
  end.
Proof.
  intros H. unfold check_after_accept, acceptedCount, accepted_of. rewrite H.
  rewrite sort_by_order_length.
  destruct (last_of (currentSections r w)); [|reflexivity].
  destruct (negb _ && _)%bool; [|reflexivity].
  destruct (generateNext_enter r _ w). reflexivity.
Qed.



(** ** Cancellation during the delay *)

(** C8 (the code departs from it).  Stop Process is clicked while a
    continuation check is pending: the cancellation flag is set and no
    request is in flight.  The callback then runs.  The flag it tests is the
    constant of the render that scheduled it, not the cell the click wrote,
    so it does not abort: it calls [generateNext], and a request is in
    flight again.  This holds for the check [generateNext] schedules and
    for the one [accept] schedules. *)
Theorem stop_during_delay_is_not_seen :
  let pending_generate :=
    fst (step (fst (run Sample.fresh Sample.second_appended)) ClickStop) in
  let pending_accept :=
    fst (step (fst (run Sample.fresh Sample.first_accepted)) ClickStop) in
  (R.shouldStop (hooks (world pending_generate)) = true /\
   inflight pending_generate = [] /\
   (exists r, timers pending_generate = [AfterGenerate r false]) /\
   (exists rq, snd (run_timer (hd (AfterAccept (hooks (world Sample.fresh)))
                                  (timers pending_generate))
                              (world pending_generate))
               = Continued (Dispatched rq)) /\
   List.length (inflight (fst (step pending_generate (Fire 0)))) = 1%nat) /\
  (R.shouldStop (hooks (world pending_accept)) = true /\
   inflight pending_accept = [] /\
   (exists r, timers pending_accept = [AfterAccept r]) /\
   (exists rq, snd (run_timer (hd (AfterAccept (hooks (world Sample.fresh)))
                                  (timers pending_accept))
                              (world pending_accept))
               = Continued (Dispatched rq)) /\
   List.length (inflight (fst (step pending_accept (Fire 0)))) = 1%nat).
Proof.
  cbn zeta. split.
  - split; [reflexivity|]. split; [reflexivity|].
    split; [eexists; reflexivity|].
    split; [eexists; vm_compute; reflexivity|reflexivity].
  - split; [reflexivity|]. split; [reflexivity|].
    split; [eexists; reflexivity|].
    split; [eexists; vm_compute; reflexivity|reflexivity].
Qed.

(** ** Single flight *)

(** C3 as stated fails.  A section of an auto-advance run has come back
    and its continuation check is pending; the user clicks Next, so a
    request is in flight and the busy flag is set.  The check then calls
    [generateNext], which does not look at the busy flag: a second request
    is dispatched while the first is still awaited. *)
Lemma generateNext_while_busy_dispatches :
  let busy := fst (step (fst (run Sample.fresh Sample.second_appended)) ClickNext) in
  R.isBusy (hooks (world busy)) = true /\
  List.length (inflight busy) = 1%nat /\
  (exists r h rq,
      timers busy = [AfterGenerate r h] /\
      R.isBusy r = false /\
      generateNext_enter r None (world busy)
      = (setIsBusy true (world busy), Dispatched rq)) /\
  (exists rq,
      generateNext_enter (render (world busy)) None (world busy)
      = (setIsBusy true (world busy), Dispatched rq)) /\
  List.length (inflight (fst (step busy (Fire 0)))) = 2%nat.
Proof.
  cbn zeta.
  split; [reflexivity|]. split; [reflexivity|].
  split; [do 3 eexists; split; [reflexivity|split; [reflexivity|]];
          vm_compute; reflexivity|].
  split; [eexists; vm_compute; reflexivity|reflexivity].
Qed.

Lemma enter_keeps_store (r : Render) (o : option (list Section_)) (w : World) :
  R.sections (hooks (fst (generateNext_enter r o w))) = R.sections (hooks w) /\
  db (fst (generateNext_enter r o w)) = db w.
Proof. enter_cases r; split; reflexivity. Qed.

(** C3, amended.  [generateNext] never changes the section list or the
    table before the provider answers, and it does not test the busy flag:
    with a book, a key, a supported provider and its own cancellation
    constant clear it sets the flag and dispatches a request, busy or not.
    The guard is in its callers: the Start / Next and Auto advance buttons
    do nothing while the render is busy, and [accept] schedules no
    continuation then. *)
Theorem single_flight_is_guarded_by_callers (r : Render)
  (o : option (list Section_)) (w : World) :
  (R.sections (hooks (fst (generateNext_enter r o w))) = R.sections (hooks w) /\
   db (fst (generateNext_enter r o w)) = db w) /\
  (R.isBusy r = true ->
   click_next r w = (w, None) /\
   click_auto r w = (w, None) /\
   forall key, snd (accept r key w) = None) /\
  (ready r -> R.shouldStop r = false ->
   exists rq, generateNext_enter r o w = (setIsBusy true w, Dispatched rq)).
Proof.
  split; [apply enter_keeps_store|]. split.
  - intros Hb. unfold click_next, click_auto, accept. rewrite Hb.
    repeat split. intros key.
    now rewrite andb_false_r.
  - apply enter_ready.
Qed.

Lemma single_flight_is_guarded_by_callers_witness :
  let l := [Sample.sec "a" "one" accepted 1] in
  let w := Sample.state true true false l l in
  click_next (render w) w = (w, None) /\
  exists rq,
    generateNext_enter (render w) None w = (setIsBusy true w, Dispatched rq).
Proof.
  intros l w.
  destruct (single_flight_is_guarded_by_callers (render w) None w)
    as (_ & Hbusy & Hgo).
  split.
  - apply Hbusy. reflexivity.
  - apply Hgo.
    + repeat split; try reflexivity. discriminate.
    + reflexivity.
Defined.

(** ** What the checks read *)

(** C4 as stated fails.  The continuation check of [generateNext] is
    pending after section [b] came back without the stop token.  During the
    delay the user edits [b], so that the latest content in the table ends
    with the stop token.  The check still continues: it tests the boolean
    computed from the provider's text before the delay. *)
Lemma check_after_generate_ignores_stored_content :
  let pending := fst (run Sample.fresh Sample.second_appended) in
  let edited := fst (step pending (Edit "b" "two <end_of_book>")) in
  (exists last,
      last_of (currentSections (render (world edited)) (world edited))
      = Some last /\
      id last = "b" /\
      Js.includes (content last) Sample.stop = true) /\
  issues_request
    (snd (run_timer (hd (AfterAccept (hooks (world Sample.fresh)))
                        (timers edited)) (world edited))) = true /\
  issues_request
    (snd (run_timer (hd (AfterAccept (hooks (world Sample.fresh)))
                        (timers pending)) (world pending))) = true /\
  List.length (inflight (fst (step edited (Fire 0)))) = 1%nat.
Proof.
  cbn zeta.
  split; [eexists; split; [vm_compute; reflexivity|split; reflexivity]|].
  repeat split; reflexivity.
Qed.

Lemma run_timer_reads_db_only (t : Timer) (w w' : World) :
  db w = db w' -> snd (run_timer t w) = snd (run_timer t w').
Proof.
  intros H. destruct t as [r h|r]; cbn [run_timer].
  - unfold check_after_generate, currentSections. rewrite H.
    destruct (R.shouldStop r); [reflexivity|].
    destruct (negb h && _)%bool; [|reflexivity].
    rewrite (surjective_pairing (generateNext_enter r None w)),
            (surjective_pairing (generateNext_enter r None w')).
    cbn [snd]. f_equal. apply entry_ignores_world.
  - unfold check_after_accept, currentSections. rewrite H.
    destruct (R.shouldStop r); [reflexivity|].
    destruct (last_of _); [|reflexivity].
    destruct (negb _ && _)%bool; [|reflexivity].
    match goal with
    | |- context [generateNext_enter r ?o w] =>
        rewrite (surjective_pairing (generateNext_enter r o w)),
                (surjective_pairing (generateNext_enter r o w'))
    end.
    cbn [snd]. f_equal. apply entry_ignores_world.
Qed.

(** C4, amended.  Both continuation checks decide from the table as it is
    when they run and from nothing else that can change during the delay:
    two states with the same table get the same decision whatever the
    in-memory cells hold.  Both count the accepted rows of the table.  The
    check [accept] schedules also takes the latest content from the table,
    so its decision follows the stored content.  The check [generateNext]
    schedules tests the stop token on the provider's text, before the
    delay: two states with the same accepted count get the same decision
    whatever the stored contents are. *)
Theorem checks_reread_the_store :
  (forall t w w', db w = db w' -> snd (run_timer t w) = snd (run_timer t w')) /\
  (forall r text newId w0 w1 s t w w',
     generateNext_settle r (Returned text) newId w0 = (w1, Appended s (Some t)) ->
     acceptedCount r w = acceptedCount r w' ->
     snd (run_timer t w) = snd (run_timer t w')) /\
  (forall r key w0 w1 t w,
     accept r key w0 = (w1, Some t) ->
     issues_request (snd (run_timer t w)) = true ->
     exists lastSection,
       last_of (currentSections r w) = Some lastSection /\
       Js.includes (content lastSection) (R.stopToken r) = false /\
       Js.count_lt (acceptedCount r w) (R.maxSections r) = true).
Proof.
  split; [exact run_timer_reads_db_only|]. split.
  - intros r text newId w0 w1 s t w w' H Hc.
    apply settle_scheduled in H.
    destruct H as (text' & _ & _ & -> & Hs & _).
    cbn [run_timer]. rewrite !(check_after_generate_eq _ _ _ Hs), Hc.
    destruct (negb _ && _)%bool; [|reflexivity].
    cbn [snd]. f_equal. apply entry_ignores_world.
  - intros r key w0 w1 t w H Hreq.
    apply accept_scheduled in H. destruct H as (-> & Hs & _).
    cbn [run_timer] in Hreq. rewrite (check_after_accept_eq _ _ Hs) in Hreq.
    destruct (last_of (currentSections r w)) as [ls|]; [|discriminate].
    exists ls. split; [reflexivity|].
    destruct (Js.includes (content ls) (R.stopToken r));
      destruct (Js.count_lt (acceptedCount r w) (R.maxSections r));
      cbn in Hreq; try discriminate.
    split; reflexivity.
Qed.

Lemma checks_reread_the_store_witness :
  let l := [Sample.sec "a" "one" accepted 1] in
  let r := hooks (Sample.state true false false l l) in
  let l2 := [Sample.sec "a" "one" accepted 1; Sample.sec "b" "two" accepted 2] in
  let e2 := [Sample.sec "a" "one" accepted 1;
             Sample.sec "b" "two <end_of_book>" accepted 2] in
  snd (run_timer (AfterGenerate r false) (Sample.state true false false l2 l2))
  = snd (run_timer (AfterGenerate r false) (Sample.state false false true l2 e2)) /\
  exists lastSection,
    last_of (currentSections r (Sample.state false false true l l))
    = Some lastSection /\
    Js.includes (content lastSection) (R.stopToken r) = false /\
    Js.count_lt (acceptedCount r (Sample.state false false true l l))
                (R.maxSections r) = true.
Proof.
  intros l r l2 e2.
  destruct checks_reread_the_store as (_ & A & B).
  split.
  - apply (A r "two" "b" (Sample.state true true false l l) _ _ _
             (Sample.state true false false l2 l2)
             (Sample.state false false true l2 e2) eq_refl).
    reflexivity.
  - apply (B r "a" (Sample.state true false false
                      [Sample.sec "a" "one" draft 1]
                      [Sample.sec "a" "one" draft 1]) _ _
             (Sample.state false false true l l) eq_refl).
    reflexivity.
Defined.

(** ** Ordinals *)

(** C5 as stated fails.  Two sections are generated and accepted, Undo last
    removes the second (ordinal 2), and the next section generated gets
    ordinal 2 again: the ordinals assigned, in order, are 1, 2, 2. *)
Lemma ordinal_reused_after_undo :
  snd (run Sample.fresh Sample.undo_then_next) = [1; 2; 2] /\
  map order (R.sections (hooks (world
        (fst (run Sample.fresh (firstn 6 Sample.undo_then_next)))))) = [1; 2] /\
  map order (R.sections (hooks (world
        (fst (run Sample.fresh (firstn 7 Sample.undo_then_next)))))) = [1] /\
  ~ StronglySorted Z.lt (snd (run Sample.fresh Sample.undo_then_next)).
Proof.
  split; [reflexivity|]. split; [reflexivity|]. split; [reflexivity|].
  change (snd (run Sample.fresh Sample.undo_then_next)) with [1; 2; 2].
  intros H. inversion H as [|a l Hl Ha]; subst.
  inversion Hl as [|b l' Hl' Hb]; subst.
  inversion Hb as [|c l'' Hc _]; subst. lia.
Qed.

Lemma step_ClickNext_quiet (s : Sys) :
  quiet s -> ready (render (world s)) ->
  step s ClickNext
  = (mkSys (setIsBusy true (setAutoAdvance false (world s)))
           [render (world s)] [], None).
Proof.
  intros (Hi & Ht & Hb & Hs & Ha) Hr.
  unfold step, click_next, render in *. rewrite Hb.
  destruct (enter_ready (hooks (world s)) None
              (setAutoAdvance false (world s)) Hr Hs) as [rq E].
  rewrite E, Hi, Ht. reflexivity.
Qed.

Lemma manual_round (s : Sys) (newId text : string) :
  quiet s -> ready (render (world s)) ->
  exists s',
    run s [ClickNext; Answer 0 (Returned text) newId]
    = (s', [Z.of_nat (S (List.length (R.sections (hooks (world s)))))]) /\
    quiet s' /\ ready (render (world s')) /\
    List.length (R.sections (hooks (world s')))
    = S (List.length (R.sections (hooks (world s)))).
Proof.
  intros Hq Hr.
  pose proof (step_ClickNext_quiet s Hq Hr) as E1.
  destruct Hq as (Hi & Ht & Hb & Hs & Ha).
  cbn [run]. rewrite E1.
  cbn [step world inflight timers nth_error generateNext_settle].
  unfold render in *. rewrite Ha. cbn [andb option_list app].
  eexists. split; [|split; [|split]].
  - cbn [new_section order]. rewrite Nat2Z.inj_succ.
    unfold Z.succ. reflexivity.
  - repeat split.
  - exact Hr.
  - cbn [world]. rewrite sections_finally, sections_set_db, sections_setSections.
    rewrite length_app. cbn [List.length hooks setIsBusy setAutoAdvance R.sections].
    lia.
Qed.

Lemma run_app (s : Sys) (es es' : list Event) :
  run s (es ++ es') =
  (fst (run (fst (run s es)) es'),
   (snd (run s es) ++ snd (run (fst (run s es)) es'))%list).
Proof.
  revert s. induction es as [|e es IH]; intros s; cbn [run app fst snd].
  - now destruct (run s es').
  - destruct (step s e) as [s1 o]. rewrite IH.
    destruct (run s1 es) as [s2 l]. cbn [fst snd].
    now rewrite app_assoc.
Qed.

Lemma manual_rounds_ordinals (answers : list (string * string)) (s : Sys) :
  quiet s -> ready (render (world s)) ->
  snd (run s (manual_rounds answers))
  = map Z.of_nat (seq (S (List.length (R.sections (hooks (world s)))))
                      (List.length answers)).
Proof.
  revert s. induction answers as [|[newId text] rest IH]; intros s Hq Hr.
  - reflexivity.
  - destruct (manual_round s newId text Hq Hr) as (s' & E & Hq' & Hr' & Hl).
    change (manual_rounds ((newId, text) :: rest))
      with ([ClickNext; Answer 0 (Returned text) newId] ++ manual_rounds rest)%list.
    rewrite run_app, E. cbn [fst snd].
    rewrite (IH s' Hq' Hr'), Hl. reflexivity.
Qed.

(** C5, amended.  The section a cycle appends gets the ordinal 1 + the
    length of the section list that cycle holds.  So when sections are
    requested with Start / Next one after another, each answered before the
    next click and nothing deleted in between, a list of [k] sections
    grows with the ordinals [k + 1], [k + 2], ...: strictly increasing, and
    starting at 1 on an empty list.  (After a deletion the next ordinal can
    be one that was assigned before.) *)
Theorem ordinal_is_count_plus_one :
  (forall r text newId w,
     exists s t,
       snd (generateNext_settle r (Returned text) newId w) = Appended s t /\
       order s = Z.of_nat (List.length (R.sections r)) + 1) /\
  (forall s answers,
     quiet s -> ready (render (world s)) ->
     snd (run s (manual_rounds answers))
     = map Z.of_nat (seq (S (List.length (R.sections (hooks (world s)))))
                         (List.length answers))) /\
  (forall k n, StronglySorted Z.lt (map Z.of_nat (seq k n))).
Proof.
  split; [|split].
  - intros r text newId w.
    destruct (settle_returned r text newId w) as [t E].
    rewrite E. do 2 eexists. split; reflexivity.
  - intros s answers. apply manual_rounds_ordinals.
  - intros k n. revert k. induction n as [|n IH]; intros k; cbn [seq map].
    + constructor.
    + constructor; [apply IH|].
      apply Forall_forall. intros z Hz.
      apply in_map_iff in Hz. destruct Hz as (m & <- & Hm).
      apply in_seq in Hm. lia.
Qed.

Lemma ordinal_is_count_plus_one_witness :
  snd (run Sample.fresh
         (manual_rounds [("a", "one"); ("b", "two"); ("c", "three")]))
  = map Z.of_nat (seq 1 3).
Proof.
  apply (proj1 (proj2 ordinal_is_count_plus_one) Sample.fresh
           [("a", "one"); ("b", "two"); ("c", "three")]).
  - repeat split.
  - repeat split; try reflexivity. discriminate.
Defined.

(** ** Status changes *)

(** C6 as stated fails.  [accept] on a discarded section makes it accepted
    and [discard] on an accepted section makes it discarded, in the list
    and in the table; nothing is signalled. *)
Lemma status_is_overwritten :
  let l := [Sample.sec "a" "one" discarded 1; Sample.sec "b" "two" accepted 2] in
  let w := Sample.state false false false l l in
  map status (R.sections (hooks (fst (accept (render w) "a" w))))
  = [accepted; accepted] /\
  map status (db (fst (accept (render w) "a" w))) = [accepted; accepted] /\
  map status (R.sections (hooks (discard "b" w))) = [discarded; discarded] /\
  map status (db (discard "b" w)) = [discarded; discarded].
Proof. cbn zeta. repeat split; reflexivity. Qed.

Lemma draft_shown_true (r : Render) (key : string) :
  draft_shown r key = true <->
  exists s, In s (R.sections r) /\ id s = key /\ status s = draft.
Proof.
  unfold draft_shown, shows_decision_buttons. rewrite existsb_exists.
  split; intros (s & Hin & H); exists s; (split; [exact Hin|]).
  - apply andb_true_iff in H. destruct H as [H1 H2].
    apply String.eqb_eq in H1.
    destruct (Status_eqb_spec (status s) draft); [auto|discriminate].
  - destruct H as [<- ->]. now rewrite String.eqb_refl.
Qed.

(** C6, amended.  [accept(id)] and [discard(id)] write the new status on
    the section with that [id] whatever its status was, in the list and in
    the table, and signal nothing; the section keeps its [id], content and
    [order].  The transcript offers Accept and Discard only on a section
    that is a draft: a click for an [id] with no draft on screen changes
    nothing. *)
Theorem status_change_is_unconditional (r : Render) (key : string) (w : World) :
  (forall i s,
     nth_error (R.sections (hooks w)) i = Some s -> id s = key ->
     exists a d,
       nth_error (R.sections (hooks (fst (accept r key w)))) i = Some a /\
       nth_error (R.sections (hooks (discard key w))) i = Some d /\
       status a = accepted /\ status d = discarded /\
       id a = id s /\ content a = content s /\ order a = order s /\
       id d = id s /\ content d = content s /\ order d = order s) /\
  (forall i s,
     nth_error (db w) i = Some s -> id s = key ->
     exists a d,
       nth_error (db (fst (accept r key w))) i = Some a /\
       nth_error (db (discard key w)) i = Some d /\
       status a = accepted /\ status d = discarded) /\
  (forall s, shows_decision_buttons s = true <-> status s = draft) /\
  (forall sys,
     (forall s, In s (R.sections (render (world sys))) ->
                id s = key -> status s <> draft) ->
     step sys (ClickAccept key) = (sys, None) /\
     step sys (ClickDiscard key) = (sys, None)).
Proof.
  split; [|split; [|split]].
  - intros i s H E.
    assert (Ha : fst (accept r key w)
                 = updateSectionLocal (mkUpd key None None (Some accepted)) w).
    { unfold accept. now destruct (_ && _ && _)%bool. }
    rewrite Ha. unfold discard, updateSectionLocal.
    cbn [hooks set_db setSections R.sections u_id].
    rewrite !(nth_error_map_id _ _ _ _ _ H).
    rewrite (proj2 (String.eqb_eq _ _) E).
    do 2 eexists. repeat split; cbn; congruence.
  - intros i s H E.
    assert (Ha : fst (accept r key w)
                 = updateSectionLocal (mkUpd key None None (Some accepted)) w).
    { unfold accept. now destruct (_ && _ && _)%bool. }
    rewrite Ha. unfold discard, updateSectionLocal.
    cbn [db set_db setSections u_id].
    rewrite !(nth_error_map_id _ _ _ _ _ H).
    rewrite (proj2 (String.eqb_eq _ _) E).
    do 2 eexists. repeat split.
  - intros s. unfold shows_decision_buttons.
    destruct (Status_eqb_spec (status s) draft); intuition congruence.
  - intros sys H.
    assert (E : draft_shown (render (world sys)) key = false).
    { destruct (draft_shown (render (world sys)) key) eqn:D; [|reflexivity].
      apply draft_shown_true in D. destruct D as (s & Hin & Hid & Hst).
      exfalso. exact (H s Hin Hid Hst). }
    cbn [step]. rewrite E. split; reflexivity.
Qed.

Lemma status_change_is_unconditional_witness :
  let l := [Sample.sec "a" "one" discarded 1] in
  let w := Sample.state false false false l l in
  (exists a d,
      nth_error (R.sections (hooks (fst (accept (render w) "a" w)))) 0 = Some a /\
      nth_error (R.sections (hooks (discard "a" w))) 0 = Some d /\
      status a = accepted /\ status d = discarded /\
      id a = "a" /\ content a = "one" /\ order a = 1 /\
      id d = "a" /\ content d = "one" /\ order d = 1) /\
  step (mkSys w [] []) (ClickAccept "a") = (mkSys w [] [], None) /\
  step (mkSys w [] []) (ClickDiscard "a") = (mkSys w [] [], None).
Proof.
  intros l w.
  destruct (status_change_is_unconditional (render w) "a" w)
    as (A & _ & _ & G).
  split.
  - apply (A 0%nat (Sample.sec "a" "one" discarded 1)); reflexivity.
  - apply (G (mkSys w [] [])).
    intros s [<-|[]] _. discriminate.
Defined.

(** * Further properties of the code *)

(** ** Undo and clear *)

Lemma world_eta (w : World) :
  mkWorld
    (R.mk (R.bookId (hooks w)) (R.title (hooks w)) (R.author (hooks w))
          (R.bookText (hooks w)) (R.prompt (hooks w)) (R.provider (hooks w))
          (R.model (hooks w)) (R.apiKeys (hooks w)) (R.autoAdvance (hooks w))
          (R.maxSections (hooks w)) (R.stopToken (hooks w))
          (R.isBusy (hooks w)) (R.shouldStop (hooks w))
          (R.sections (hooks w)))
    (db w) = w.
Proof. destruct w as [[] ?]. reflexivity. Qed.

Lemma findIndex_none {A} (p : A -> bool) (l : list A) :
  Forall (fun x => p x = false) l -> findIndex p l = None.
Proof.
  induction 1 as [|x l Hx _ IH]; cbn [findIndex]; [reflexivity|].
  now rewrite Hx, IH.
Qed.

Lemma findIndex_skip {A} (p : A -> bool) (a b : list A) (x : A) :
  Forall (fun y => p y = false) a -> p x = true ->
  findIndex p (a ++ x :: b) = Some (List.length a).
Proof.
  induction 1 as [|y a Hy _ IH]; intros Hx; cbn [findIndex app List.length].
  - now rewrite Hx.
  - now rewrite Hy, (IH Hx).
Qed.

(** Either nothing in the list satisfies [p], or the list splits at its
    last element that does. *)
Lemma split_last {A} (p : A -> bool) (l : list A) :
  Forall (fun x => p x = false) l \/
  exists l1 x l2,
    l = (l1 ++ x :: l2)%list /\ p x = true /\ Forall (fun y => p y = false) l2.
Proof.
  induction l as [|y l IH].
  - left. constructor.
  - destruct IH as [H|(l1 & x & l2 & -> & Hx & H2)].
    + destruct (p y) eqn:Hy.
      * right. exists [], y, l. repeat split; assumption.
      * left. now constructor.
    + right. exists (y :: l1), x, l2. repeat split; assumption.
Qed.

Lemma splice1_middle {A} (l1 l2 : list A) (x : A) :
  splice1 (List.length l1) (l1 ++ x :: l2) = ([x], (l1 ++ l2)%list).
Proof.
  unfold splice1. f_equal.
  - rewrite skipn_app, skipn_all, Nat.sub_diag. reflexivity.
  - rewrite firstn_app, firstn_all, Nat.sub_diag. cbn [firstn].
    rewrite app_nil_r. f_equal.
    rewrite skipn_app, skipn_all2 by (cbn; lia).
    replace (S (List.length l1) - List.length l1)%nat with 1%nat by lia.
    reflexivity.
Qed.

Lemma not_accepted_false (s : Section_) :
  is_accepted s = false <-> status s <> accepted.
Proof.
  rewrite <- is_accepted_true. destruct (is_accepted s); intuition congruence.
Qed.

Lemma undoLast_no_book (r : Render) (w : World) :
  Js.nonempty (R.bookId r) = false -> undoLast r w = w.
Proof. unfold undoLast. intros ->. reflexivity. Qed.

Lemma undoLast_none_accepted (r : Render) (w : World) :
  Forall (fun s => status s <> accepted) (R.sections (hooks w)) ->
  undoLast r w = w.
Proof.
  unfold undoLast. intros H.
  destruct (negb (Js.nonempty (R.bookId r))); [reflexivity|].
  rewrite findIndex_none; [reflexivity|].
  apply Forall_rev. eapply Forall_impl; [|exact H].
  intros s. apply not_accepted_false.
Qed.

Lemma undoLast_split (r : Render) (w : World) (l1 l2 : list Section_)
  (p : Section_) :
  Js.nonempty (R.bookId r) = true ->
  R.sections (hooks w) = (l1 ++ p :: l2)%list ->
  status p = accepted ->
  Forall (fun s => status s <> accepted) l2 ->
  undoLast r w
  = set_db (Db.delete (id p)) (setSections (fun _ => (l1 ++ l2)%list) w).
Proof.
  unfold undoLast. intros -> E Hp H2. cbn [negb]. rewrite E.
  rewrite rev_app_distr. cbn [rev]. rewrite <- app_assoc. cbn [app].
  rewrite findIndex_skip.
  - rewrite length_rev, length_app. cbn [List.length].
    replace (List.length l1 + S (List.length l2) - 1 - List.length l2)%nat
      with (List.length l1) by lia.
    rewrite splice1_middle. reflexivity.
  - apply Forall_rev. eapply Forall_impl; [|exact H2].
    intros s. apply not_accepted_false.
  - now apply is_accepted_true.
Qed.

(** X1.  [undoLast] does nothing when no book is loaded or no section is
    accepted.  Otherwise it removes exactly one section, the accepted one
    that comes last in the list (whatever its [order]), keeps every other
    section in place, and deletes the row with that section's [id] from the
    table. *)
Theorem undoLast_removes_last_accepted (r : Render) (w : World) :
  (Js.nonempty (R.bookId r) = false -> undoLast r w = w) /\
  (Forall (fun s => status s <> accepted) (R.sections (hooks w)) ->
   undoLast r w = w) /\
  (Js.nonempty (R.bookId r) = true ->
   forall l1 p l2,
     R.sections (hooks w) = (l1 ++ p :: l2)%list ->
     status p = accepted ->
     Forall (fun s => status s <> accepted) l2 ->
     undoLast r w
     = set_db (Db.delete (id p)) (setSections (fun _ => (l1 ++ l2)%list) w)).
Proof.
  split; [apply undoLast_no_book|].
  split; [apply undoLast_none_accepted|].
  intros Hb l1 p l2 E Hp H2. now apply undoLast_split.
Qed.

Lemma undoLast_removes_last_accepted_witness :
  let a := Sample.sec "a" "one" accepted 5 in
  let b := Sample.sec "b" "two" accepted 2 in
  let c := Sample.sec "c" "three" draft 3 in
  let w := Sample.state false false false [a; b; c] [a; b; c] in
  undoLast (render w) w
  = set_db (Db.delete "b") (setSections (fun _ => [a; c]) w).
Proof.
  intros a b c w.
  destruct (undoLast_removes_last_accepted (render w) w) as (_ & _ & H).
  apply (H eq_refl [a] b [c]).
  - reflexivity.
  - reflexivity.
  - repeat constructor. discriminate.
Defined.

(** X2.  [clearRun] does nothing when no book is loaded.  Otherwise it
    empties the in-memory list and leaves no row of the book in the table,
    while the rows of every other book stay as they are, in the same
    order. *)
Theorem clearRun_removes_the_book_only (r : Render) (w : World) :
  (Js.nonempty (R.bookId r) = false -> clearRun r w = w) /\
  (Js.nonempty (R.bookId r) = true ->
   R.sections (hooks (clearRun r w)) = [] /\
   Db.where_book (R.bookId r) (db (clearRun r w)) = [] /\
   (forall b, b <> R.bookId r ->
      Db.where_book b (db (clearRun r w)) = Db.where_book b (db w)) /\
   (forall s, In s (db (clearRun r w)) <->
              In s (db w) /\ bookId s <> R.bookId r)).
Proof.
  unfold clearRun. split.
  - intros ->. reflexivity.
  - intros ->. cbn [negb db set_db setSections hooks R.sections].
    split; [reflexivity|].
    unfold Db.where_book, Db.delete_book.
    split; [|split].
    + induction (db w) as [|x t IH]; cbn [filter]; [reflexivity|].
      destruct (String.eqb_spec (bookId x) (R.bookId r)) as [E|E];
        cbn [negb filter]; [exact IH|].
      apply String.eqb_neq in E. rewrite E. exact IH.
    + intros b Hb.
      induction (db w) as [|x t IH]; cbn [filter]; [reflexivity|].
      destruct (String.eqb_spec (bookId x) (R.bookId r)) as [E|E];
        cbn [negb filter].
      * assert (Hx : String.eqb (bookId x) b = false)
          by (apply String.eqb_neq; congruence).
        rewrite Hx. exact IH.
      * destruct (String.eqb (bookId x) b); [f_equal|]; exact IH.
    + intros s. rewrite filter_In.
      destruct (String.eqb_spec (bookId s) (R.bookId r)); cbn [negb];
        intuition congruence.
Qed.

Lemma clearRun_removes_the_book_only_witness :
  let a := Sample.sec "a" "one" accepted 1 in
  let other := mkSection "z" "book-2" "kept" "kept" accepted 1 in
  let w := Sample.state false false false [a] [a; other] in
  R.sections (hooks (clearRun (render w) w)) = [] /\
  Db.where_book "book-2" (db (clearRun (render w) w)) = [other].
Proof.
  intros a other w.
  destruct (clearRun_removes_the_book_only (render w) w) as (_ & H).
  destruct (H eq_refl) as (H1 & _ & H3 & _).
  split; [exact H1|].
  rewrite (H3 "book-2"); [reflexivity|discriminate].
Defined.

(** ** Headings *)

Lemma takeWhile_Forall {A} (p : A -> bool) (l : list A) :
  Forall (fun x => p x = true) (Js.takeWhile p l).
Proof.
  induction l as [|x l IH]; cbn [Js.takeWhile]; [constructor|].
  destruct (p x) eqn:E; constructor; assumption.
Qed.


Lemma dropWhile_incl {A} (p : A -> bool) (l : list A) (x : A) :
  In x (Js.dropWhile p l) -> In x l.
Proof.
  induction l as [|y l IH]; cbn [Js.dropWhile]; [tauto|].
  destruct (p y); cbn [In]; tauto.
Qed.

Lemma trim_chars_incl (l : list ascii) (x : ascii) :
  In x (Js.trim_chars l) -> In x l.
Proof.
  unfold Js.trim_chars. intros H.
  apply in_rev, dropWhile_incl, in_rev, dropWhile_incl in H. exact H.
Qed.

Lemma chars_str (l : list ascii) : Js.chars (Js.str l) = l.
Proof. apply list_ascii_of_string_of_list_ascii. Qed.

Lemma str_chars (s : string) : Js.str (Js.chars s) = s.
Proof. apply string_of_list_ascii_of_string. Qed.

Lemma slice0_chars (n : nat) (s : string) :
  Js.chars (Js.slice0 n s) = firstn n (Js.chars s).
Proof.
  unfold Js.slice0, Js.chars. revert s.
  induction n as [|n IH]; intros [|c s]; cbn; try reflexivity.
  now rewrite IH.
Qed.

Lemma length_chars (s : string) : List.length (Js.chars s) = String.length s.
Proof. induction s as [|c s IH]; cbn; [reflexivity|now rewrite IH]. Qed.

Lemma match_at_one_line (l g : list ascii) :
  Heading.match_at l = Some g ->
  Forall (fun c => Js.is_line_terminator c = false) g.
Proof.
  unfold Heading.match_at.
  destruct (Js.takeWhile Js.is_space l) as [|c0 run]; [discriminate|].
  destruct (Js.dropWhile Js.is_space l) as [|c rest] eqn:D.
  - destruct (Js.dropWhile Js.is_line_terminator (rev run)) as [|c tl] eqn:E;
      [discriminate|].
    intros H. injection H as <-. constructor; [|constructor].
    induction (rev run) as [|y t IH]; [discriminate|].
    cbn [Js.dropWhile] in E.
    destruct (Js.is_line_terminator y) eqn:Y; [now apply IH|].
    now injection E as <- _.
  - intros H. injection H as <-.
    pose proof (takeWhile_Forall Heading.not_line_terminator (c :: rest)) as F.
    eapply Forall_impl; [|exact F].
    intros a Ha. unfold Heading.not_line_terminator in Ha.
    now destruct (Js.is_line_terminator a).
Qed.

Lemma first_match_one_line (bol : bool) (l g : list ascii) :
  Heading.first_match bol l = Some g ->
  Forall (fun c => Js.is_line_terminator c = false) g.
Proof.
  revert bol. induction l as [|c l IH]; intros bol; cbn [Heading.first_match];
    [discriminate|].
  destruct (bol && Heading.is_hash c)%bool.
  - destruct (Heading.match_at l) as [g'|] eqn:M.
    + intros H. injection H as <-. now apply match_at_one_line in M.
    + apply IH.
  - apply IH.
Qed.

Lemma first_line_no_LF (l : list ascii) : ~ In Js.LF (Heading.first_line l).
Proof.
  unfold Heading.first_line. intros H.
  pose proof (takeWhile_Forall (fun c => negb (Ascii.eqb c Js.LF)) l) as F.
  rewrite Forall_forall in F. specialize (F _ H).
  now rewrite Ascii.eqb_refl in F.
Qed.

Lemma strip_hashes_incl (l : list ascii) (x : ascii) :
  In x (Heading.strip_hashes l) -> In x l.
Proof.
  unfold Heading.strip_hashes. destruct l as [|c l]; [tauto|].
  destruct (Heading.is_hash c); [|tauto].
  intros H. now apply dropWhile_incl, dropWhile_incl in H.
Qed.

Lemma firstn_incl {A} (n : nat) (l : list A) (x : A) :
  In x (firstn n l) -> In x l.
Proof.
  intros H. rewrite <- (firstn_skipn n l). apply in_or_app. now left.
Qed.

(** X3.  A heading is a single line: whatever the text, [parseHeading]
    returns a string without line feed. *)
Theorem parseHeading_has_no_line_feed (md : string) :
  ~ In Js.LF (Js.chars (parseHeading md)).
Proof.
  unfold parseHeading, Heading.parseHeading.
  destruct (Heading.first_match true (Js.chars md)) as [g|] eqn:M.
  - rewrite chars_str. intros H. apply trim_chars_incl in H.
    apply first_match_one_line in M. rewrite Forall_forall in M.
    specialize (M _ H). discriminate.
  - unfold Js.or_else.
    destruct (Js.slice0 120 _) as [|c s] eqn:E.
    + cbn. intros H. repeat (destruct H as [H|H]; [discriminate|]). exact H.
    + rewrite <- E, slice0_chars, chars_str. intros H.
      apply firstn_incl, strip_hashes_incl in H.
      now apply first_line_no_LF in H.
Qed.

Lemma takeWhile_app_stop {A} (p : A -> bool) (a b : list A) :
  Forall (fun x => p x = true) a ->
  match b with
  | [] => True
  | y :: _ => p y = false
  end ->
  Js.takeWhile p (a ++ b) = a.
Proof.
  induction 1 as [|x a Hx _ IH]; intros Hb; cbn [app Js.takeWhile].
  - destruct b as [|y b]; [reflexivity|]. cbn [Js.takeWhile]. now rewrite Hb.
  - rewrite Hx. f_equal. now apply IH.
Qed.

Lemma chars_append (a b : string) :
  Js.chars (a ++ b) = (Js.chars a ++ Js.chars b)%list.
Proof. induction a as [|c a IH]; cbn; [reflexivity|]. now f_equal. Qed.








(** ** The stitched text and the updates *)

Lemma filter_map_id_frame (f : Section_ -> Section_) (key : string)
  (l : list Section_) :
  (forall s, In s l -> id s = key ->
             is_accepted s = false /\ is_accepted (f s) = false) ->
  filter is_accepted (map_id f key l) = filter is_accepted l.
Proof.
  unfold map_id. induction l as [|x l IH]; intros H; cbn [map filter];
    [reflexivity|].
  rewrite IH by (intros s Hs; apply H; now right).
  destruct (String.eqb_spec (id x) key) as [E|E]; [|reflexivity].
  destruct (H x (or_introl eq_refl) E) as [H1 H2]. now rewrite H1, H2.
Qed.

(** X6.  Editing or discarding a section that is not accepted leaves the
    stitched text, and the history the next request embeds, exactly as they
    were. *)
Theorem stitched_ignores_unaccepted_changes (key text : string) (w : World) :
  (forall s, In s (R.sections (hooks w)) -> id s = key ->
             status s <> accepted) ->
  stitched (render (edit key text w)) = stitched (render w) /\
  stitched (render (discard key w)) = stitched (render w) /\
  history_of (render (edit key text w)) None = history_of (render w) None /\
  history_of (render (discard key w)) None = history_of (render w) None.
Proof.
  intros H.
  assert (E : accepted_memo (render (edit key text w)) = accepted_memo (render w)).
  { unfold accepted_memo, accepted_of, render, edit, updateSectionLocal.
    cbn [hooks set_db setSections R.sections u_id]. f_equal.
    apply filter_map_id_frame. intros s Hs Hid.
    split; apply not_accepted_false; cbn; now apply H. }
  assert (D : accepted_memo (render (discard key w)) = accepted_memo (render w)).
  { unfold accepted_memo, accepted_of, render, discard, updateSectionLocal.
    cbn [hooks set_db setSections R.sections u_id]. f_equal.
    apply filter_map_id_frame. intros s Hs Hid.
    split; apply not_accepted_false; cbn; [now apply H|discriminate]. }
  unfold stitched, history_of, or_default. rewrite E, D. repeat split.
Qed.

Lemma stitched_ignores_unaccepted_changes_witness :
  let l := [Sample.sec "a" "one" accepted 1; Sample.sec "b" "two" draft 2] in
  let w := Sample.state false false false l l in
  stitched (render (edit "b" "rewritten" w)) = stitched (render w).
Proof.
  intros l w.
  apply (stitched_ignores_unaccepted_changes "b" "rewritten" w).
  intros s [<-|[<-|[]]]; cbn; [discriminate|discriminate].
Defined.

Lemma insert_by_order_least (s : Section_) (l : list Section_) :
  Forall (order_le s) l -> insert_by_order s l = s :: l.
Proof.
  intros H. destruct H as [|x l Hx _]; cbn [insert_by_order]; [reflexivity|].
  unfold order_le in Hx. apply Z.leb_le in Hx. now rewrite Hx.
Qed.

Lemma sort_by_order_sorted_id (l : list Section_) :
  StronglySorted order_le l -> sort_by_order l = l.
Proof.
  induction 1 as [|x l _ IH Hx]; cbn [sort_by_order fold_right]; [reflexivity|].
  fold (sort_by_order l). rewrite IH. now apply insert_by_order_least.
Qed.

Lemma filter_sorted (l : list Section_) :
  StronglySorted order_le l -> StronglySorted order_le (filter is_accepted l).
Proof.
  induction 1 as [|x l _ IH Hx]; cbn [filter]; [constructor|].
  destruct (is_accepted x); [|exact IH].
  constructor; [exact IH|].
  apply Forall_forall. intros y Hy. apply filter_In in Hy.
  rewrite Forall_forall in Hx. now apply Hx.
Qed.

(** X7.  When the [order] values do not decrease along the section list,
    sorting changes nothing: the stitched text is the contents of the
    accepted sections in the order of the transcript, joined by a blank
    line. *)
Theorem stitched_follows_the_transcript (r : Render) :
  StronglySorted order_le (R.sections r) ->
  accepted_memo r = filter is_accepted (R.sections r) /\
  stitched r
  = Js.join blank_line (map content (filter is_accepted (R.sections r))).
Proof.
  intros H.
  assert (E : accepted_memo r = filter is_accepted (R.sections r)).
  { unfold accepted_memo, accepted_of.
    now apply sort_by_order_sorted_id, filter_sorted. }
  split; [exact E|]. unfold stitched, join_contents. now rewrite E.
Qed.

Lemma stitched_follows_the_transcript_witness :
  let l := [Sample.sec "a" "one" accepted 1; Sample.sec "b" "two" draft 2;
            Sample.sec "c" "three" accepted 2] in
  accepted_memo (hooks (Sample.state false false false l l))
  = [Sample.sec "a" "one" accepted 1; Sample.sec "c" "three" accepted 2].
Proof.
  intros l.
  apply (stitched_follows_the_transcript (hooks (Sample.state false false false l l))).
  repeat constructor; unfold order_le; cbn; lia.
Defined.

Lemma map_id_absent (f : Section_ -> Section_) (key : string)
  (l : list Section_) :
  (forall s, In s l -> id s <> key) -> map_id f key l = l.
Proof.
  unfold map_id. induction l as [|x l IH]; intros H; cbn [map]; [reflexivity|].
  rewrite IH by (intros s Hs; apply H; now right).
  destruct (String.eqb_spec (id x) key) as [E|E]; [|reflexivity].
  exfalso. exact (H x (or_introl eq_refl) E).
Qed.

(** X8.  An update for an [id] that no section in the list and no row in
    the table carries changes nothing at all: [edit], [discard] and the
    update made by [accept] return the state they were given. *)
Theorem update_of_unknown_id_is_noop (r : Render) (key text : string)
  (w : World) :
  (forall s, In s (R.sections (hooks w)) -> id s <> key) ->
  (forall s, In s (db w) -> id s <> key) ->
  edit key text w = w /\ discard key w = w /\ fst (accept r key w) = w.
Proof.
  intros Hl Hd.
  assert (U : forall upd, u_id upd = key -> updateSectionLocal upd w = w).
  { intros upd <-. unfold updateSectionLocal, set_db, setSections.
    cbn [hooks db R.bookId R.title R.author R.bookText R.prompt R.provider
         R.model R.apiKeys R.autoAdvance R.maxSections R.stopToken R.isBusy
         R.shouldStop R.sections].
    rewrite !map_id_absent by assumption. apply world_eta. }
  split; [apply U; reflexivity|]. split; [apply U; reflexivity|].
  unfold accept. destruct (_ && _ && _)%bool; apply U; reflexivity.
Qed.

Lemma update_of_unknown_id_is_noop_witness :
  let l := [Sample.sec "a" "one" draft 1] in
  let w := Sample.state false false false l l in
  edit "zzz" "text" w = w.
Proof.
  intros l w.
  apply (update_of_unknown_id_is_noop (render w) "zzz" "text" w).
  - intros s [<-|[]]. discriminate.
  - intros s [<-|[]]. discriminate.
Defined.

Lemma map_id_twice (f g : Section_ -> Section_) (key : string)
  (l : list Section_) :
  (forall s, id (f s) = key) ->
  map_id g key (map_id f key l)
  = map_id (fun s => g (f s)) key l.
Proof.
  intros Hf. unfold map_id. rewrite map_map. apply map_ext. intros s.
  destruct (String.eqb_spec (id s) key) as [E|E].
  - now rewrite Hf, String.eqb_refl.
  - apply String.eqb_neq in E. now rewrite E.
Qed.

(** X9.  The last edit of a section wins: editing a section again gives
    the state a single edit with the last text gives, in the list (content
    and heading) and in the table. *)
Theorem edit_overwrites_edit (key text1 text2 : string) (w : World) :
  edit key text2 (edit key text1 w) = edit key text2 w.
Proof.
  unfold edit, updateSectionLocal, set_db, setSections.
  cbn [hooks db R.bookId R.title R.author R.bookText R.prompt R.provider
       R.model R.apiKeys R.autoAdvance R.maxSections R.stopToken R.isBusy
       R.shouldStop R.sections u_id].
  rewrite !map_id_twice by reflexivity.
  reflexivity.
Qed.

(** ** Cancellation before a cycle *)

(** X10.  Stop Process clicked while nothing is awaited (auto-advance on,
    not busy) leaves the cancellation flag set.  The next click on Start /
    Next or on Auto advance is then used up by the flag: [generateNext]
    clears it and returns without sending a request.  The click after that
    sends one. *)
Theorem stop_swallows_the_next_click (w : World) :
  ready (render w) ->
  R.isBusy (hooks w) = false ->
  R.autoAdvance (hooks w) = true ->
  let w1 := click_stop (render w) w in
  let w2 := setShouldStop false (setAutoAdvance false w1) in
  R.shouldStop (hooks w1) = true /\
  R.autoAdvance (hooks w1) = false /\
  click_next (render w1) w1 = (w2, Some Cancelled) /\
  click_auto (render w1) w1
  = (setShouldStop false (setAutoAdvance true w1), Some Cancelled) /\
  exists rq,
    click_next (render w2) w2
    = (setIsBusy true (setAutoAdvance false w2), Some (Dispatched rq)).
Proof.
  destruct w as [[b ti au bt pr pv mo ks aa mx st bu ss sec] d].
  unfold ready, render, currentApiKey.
  cbn [hooks R.bookId R.provider R.apiKeys R.isBusy R.autoAdvance].
  intros (Hb & Hk & Hp) -> ->.
  cbn zeta. unfold click_stop, click_next, click_auto, render.
  cbn [hooks R.isBusy R.autoAdvance orb setAutoAdvance setShouldStop
       R.shouldStop R.bookId R.title R.author R.bookText R.prompt R.provider
       R.model R.apiKeys R.maxSections R.stopToken R.sections db].
  unfold generateNext_enter, currentApiKey.
  cbn [hooks R.isBusy R.autoAdvance orb setAutoAdvance setShouldStop
       R.shouldStop R.bookId R.title R.author R.bookText R.prompt R.provider
       R.model R.apiKeys R.maxSections R.stopToken R.sections db].
  rewrite Hb, Hk. cbn [negb].
  repeat (split; [reflexivity|]).
  destruct (provider_of pv); [|congruence].
  eexists. reflexivity.
Qed.

Lemma stop_swallows_the_next_click_witness :
  let l := [Sample.sec "a" "one" accepted 1] in
  let w := Sample.state true false false l l in
  let w1 := click_stop (render w) w in
  click_next (render w1) w1
  = (setShouldStop false (setAutoAdvance false w1), Some Cancelled).
Proof.
  intros l w.
  apply (stop_swallows_the_next_click w).
  - repeat split; try reflexivity. discriminate.
  - reflexivity.
  - reflexivity.
Defined.

(** ** Outcomes of the entry *)

(** X11.  [generateNext] sends a request exactly when a book is loaded, a
    key is stored for the selected provider, the provider is one of the
    three supported and its cancellation flag is clear.  Without a book or
    without a key it alerts and leaves every cell as it was, a pending
    cancellation included. *)
Theorem generateNext_entry_outcomes (r : Render) (o : option (list Section_))
  (w : World) :
  (dispatched (snd (generateNext_enter r o w)) = true <->
   ready r /\ R.shouldStop r = false) /\
  (Js.nonempty (R.bookId r) = false \/ Js.nonempty (currentApiKey r) = false ->
   fst (generateNext_enter r o w) = w /\
   exists alert, snd (generateNext_enter r o w) = Refused alert) /\
  (forall alert, snd (generateNext_enter r o w) = Refused alert ->
   Js.nonempty (R.bookId r) = false \/ Js.nonempty (currentApiKey r) = false).
Proof.
  unfold ready, generateNext_enter.
  destruct (Js.nonempty (R.bookId r)), (Js.nonempty (currentApiKey r)),
    (R.shouldStop r), (provider_of (R.provider r));
    cbn [negb fst snd dispatched];
    (split; [|split]);
    try (split; intros; intuition congruence);
    try (intros; intuition (try congruence; eauto));
    try (intros alert H; discriminate H).
Qed.

Lemma generateNext_entry_outcomes_witness :
  let r := R.mk "book-1" "" "" "" "" "anthropic" "" [("openai", "sk-1")]
                false (Js.Int 12) Sample.stop false true [] in
  let w := Sample.state false false true [] [] in
  fst (generateNext_enter r None w) = w /\
  exists alert, snd (generateNext_enter r None w) = Refused alert.
Proof.
  intros r w.
  apply (generateNext_entry_outcomes r None w).
  right. reflexivity.
Defined.

(** ** Settings that stop auto-advance *)

Lemma includes_empty (s : string) : Js.includes s "" = true.
Proof. destruct s; reflexivity. Qed.

(** X12.  With an empty stop token, or with a maximum that is not a number
    or not positive, no continuation check ever continues: every scheduled
    check sets auto-advance off and asks for nothing. *)
Theorem degenerate_settings_halt (t : Timer) (w : World) :
  scheduled t ->
  R.stopToken (timer_render t) = "" \/
  R.maxSections (timer_render t) = Js.NaN \/
  (exists z, R.maxSections (timer_render t) = Js.Int z /\ z <= 0) ->
  run_timer t w = (setAutoAdvance false w, Halted).
Proof.
  intros Hs Hd.
  assert (Hc : forall n,
             R.stopToken (timer_render t) <> "" ->
             Js.count_lt n (R.maxSections (timer_render t)) = false).
  { intros n Hne. destruct Hd as [E|[E|(z & E & Hz)]]; [congruence| |];
      rewrite E; cbn [Js.count_lt]; [reflexivity|].
    apply Z.ltb_ge. lia. }
  destruct Hs as [r c newId w0 w1 s t H|r key w0 w1 t H].
  - apply settle_scheduled in H.
    destruct H as (text & _ & _ & -> & Hstop & _).
    cbn [run_timer timer_render] in *.
    rewrite (check_after_generate_eq _ _ _ Hstop).
    destruct (String.string_dec (R.stopToken r) "") as [E|E].
    + rewrite E, includes_empty. reflexivity.
    + rewrite (Hc _ E), andb_false_r. reflexivity.
  - apply accept_scheduled in H. destruct H as (-> & Hstop & _).
    cbn [run_timer timer_render] in *.
    rewrite (check_after_accept_eq _ _ Hstop).
    destruct (last_of (currentSections r w)) as [ls|]; [|reflexivity].
    destruct (String.string_dec (R.stopToken r) "") as [E|E].
    + rewrite E, includes_empty. reflexivity.
    + rewrite (Hc _ E), andb_false_r. reflexivity.
Qed.

Lemma degenerate_settings_halt_witness :
  let l := [Sample.sec "a" "one" accepted 1] in
  let r := R.mk "book-1" "Walden" "" "text" "sys" "openai" "m"
                [("openai", "sk-1")] true (Js.Int 12) "" false false l in
  let w := Sample.state true false false l l in
  run_timer (AfterAccept r) w = (setAutoAdvance false w, Halted).
Proof.
  intros l r w.
  apply (degenerate_settings_halt (AfterAccept r) w).
  - apply (scheduled_by_accept r "a" w _ _ eq_refl).
  - left. reflexivity.
Defined.

(** ** Single flight without auto-advance *)

Lemma flags_updateSectionLocal (upd : Upd) (w : World) :
  R.autoAdvance (hooks (updateSectionLocal upd w)) = R.autoAdvance (hooks w) /\
  R.isBusy (hooks (updateSectionLocal upd w)) = R.isBusy (hooks w).
Proof. split; reflexivity. Qed.

Lemma flags_undoLast (r : Render) (w : World) :
  R.autoAdvance (hooks (undoLast r w)) = R.autoAdvance (hooks w) /\
  R.isBusy (hooks (undoLast r w)) = R.isBusy (hooks w).
Proof.
  unfold undoLast.
  destruct (negb (Js.nonempty (R.bookId r))); [split; reflexivity|].
  destruct (findIndex is_accepted (rev (R.sections (hooks w))));
    [|split; reflexivity].
  destruct (splice1 _ _) as [[|p popped] copy]; split; reflexivity.
Qed.

Lemma flags_clearRun (r : Render) (w : World) :
  R.autoAdvance (hooks (clearRun r w)) = R.autoAdvance (hooks w) /\
  R.isBusy (hooks (clearRun r w)) = R.isBusy (hooks w).
Proof.
  unfold clearRun.
  destruct (negb (Js.nonempty (R.bookId r))); split; reflexivity.
Qed.

Lemma manual_mode_same_flags (s : Sys) (w' : World) :
  manual_mode s ->
  R.autoAdvance (hooks w') = R.autoAdvance (hooks (world s)) /\
  R.isBusy (hooks w') = R.isBusy (hooks (world s)) ->
  manual_mode (mkSys w' (inflight s) (timers s)).
Proof.
  intros (Ht & Ha & Hf & Hb) [Ea Eb]. unfold manual_mode.
  cbn [world inflight timers]. rewrite Ea, Eb. repeat split; assumption.
Qed.

Lemma manual_mode_step (s : Sys) (e : Event) :
  manual_mode s -> is_ClickAuto e = false -> manual_mode (fst (step s e)).
Proof.
  intros M He. pose proof M as (Ht & Ha & Hf & Hb).
  destruct e; try discriminate He; cbn [step fst].
  - (* ClickNext *)
    unfold click_next, render.
    destruct Hb as [[Hi Hbusy]|(r0 & Hi & Hbusy)]; rewrite Hbusy.
    + unfold generateNext_enter.
      destruct (negb (Js.nonempty (R.bookId (hooks (world s)))));
        [|destruct (negb (Js.nonempty (currentApiKey (hooks (world s)))));
          [|destruct (R.shouldStop (hooks (world s)));
            [|destruct (provider_of (R.provider (hooks (world s))))]]];
        cbn [fst]; unfold manual_mode; cbn [world inflight timers];
        rewrite ?Hi, ?Ht; cbn [app];
        repeat split; try assumption; try reflexivity;
        try (left; split; [reflexivity|exact Hbusy]);
        try (left; split; reflexivity);
        try (constructor; [exact Ha|constructor]).
      right. eexists. split; reflexivity.
    + cbn [fst]. destruct s as [w infl tm]. exact M.
  - (* ClickStop *)
    apply manual_mode_same_flags; [exact M|].
    unfold click_stop, render.
    destruct (R.isBusy (hooks (world s)) || R.autoAdvance (hooks (world s)))%bool;
      split; cbn; congruence.
  - (* ClickAccept *)
    destruct (draft_shown (render (world s)) key); [|exact M].
    unfold accept, render. rewrite Ha. cbn [andb fst option_list].
    rewrite app_nil_r.
    apply manual_mode_same_flags; [exact M|apply flags_updateSectionLocal].
  - (* ClickDiscard *)
    destruct (draft_shown (render (world s)) key); [|exact M].
    cbn [fst]. apply manual_mode_same_flags; [exact M|].
    apply flags_updateSectionLocal.
  - (* Edit *)
    apply manual_mode_same_flags; [exact M|apply flags_updateSectionLocal].
  - (* ClickUndo *)
    apply manual_mode_same_flags; [exact M|apply flags_undoLast].
  - (* ClickClear *)
    apply manual_mode_same_flags; [exact M|apply flags_clearRun].
  - (* Answer *)
    destruct Hb as [[Hi Hbusy]|(r0 & Hi & Hbusy)]; rewrite Hi.
    + destruct i; cbn [nth_error fst]; exact M.
    + destruct i as [|i]; cbn [nth_error];
        [|destruct i; cbn [nth_error fst]; exact M].
      assert (Hr0 : R.autoAdvance r0 = false).
      { rewrite Hi in Hf. now inversion Hf. }
      destruct c as [text|message]; cbn [generateNext_settle].
      * rewrite Hr0. cbn [andb fst option_list]. rewrite app_nil_r.
        unfold manual_mode. cbn [world inflight timers remove_nth firstn skipn app].
        repeat split; try assumption; try reflexivity.
        -- constructor.
        -- left. split; reflexivity.
      * cbn [fst]. unfold manual_mode.
        cbn [world inflight timers remove_nth firstn skipn app].
        repeat split; try assumption; try reflexivity.
        -- constructor.
        -- left. split; reflexivity.
  - (* Fire *)
    rewrite Ht. destruct i; cbn [nth_error fst]; exact M.
Qed.

Lemma manual_mode_run (es : list Event) (s : Sys) :
  manual_mode s -> forallb (fun e => negb (is_ClickAuto e)) es = true ->
  manual_mode (fst (run s es)).
Proof.
  revert s. induction es as [|e es IH]; intros s M H; cbn [run].
  - exact M.
  - cbn [forallb] in H. apply andb_true_iff in H. destruct H as [He Hes].
    apply negb_true_iff in He.
    pose proof (manual_mode_step s e M He) as M1.
    destruct (step s e) as [s1 o]. cbn [fst] in M1.
    specialize (IH s1 M1 Hes).
    destruct (run s1 es) as [s2 l]. exact IH.
Qed.

(** X13.  As long as Auto advance is never clicked, requests are single
    flight.  From a state with auto-advance off in which nothing is awaited
    or scheduled, whatever the user clicks, edits, accepts, undoes or
    clears and however the provider answers, at most one request is
    awaited at any time, the busy flag is set exactly while one is, and no
    continuation check is ever scheduled. *)
Theorem manual_sessions_are_single_flight (s : Sys) (es : list Event) :
  quiet s ->
  forallb (fun e => negb (is_ClickAuto e)) es = true ->
  (List.length (inflight (fst (run s es))) <= 1)%nat /\
  (R.isBusy (hooks (world (fst (run s es)))) = true <->
   inflight (fst (run s es)) <> []) /\
  timers (fst (run s es)) = [] /\
  R.autoAdvance (hooks (world (fst (run s es)))) = false.
Proof.
  intros (Hi & Ht & Hb & _ & Ha) Hes.
  assert (M : manual_mode s).
  { unfold manual_mode. rewrite Hi. repeat split; try assumption.
    - constructor.
    - left. split; [reflexivity|exact Hb]. }
  pose proof (manual_mode_run es s M Hes) as (Ht' & Ha' & _ & Hb').
  destruct Hb' as [[Ei Eb]|(r0 & Ei & Eb)]; rewrite Ei, Eb;
    repeat split; cbn; try assumption; try lia; try congruence;
    try discriminate.
Qed.

Lemma manual_sessions_are_single_flight_witness :
  (List.length (inflight (fst (run Sample.fresh
     [ClickNext; ClickNext; Fire 0; Answer 0 (Returned "one") "a";
      ClickAccept "a"; ClickNext; ClickStop; ClickUndo]))) <= 1)%nat.
Proof.
  apply (manual_sessions_are_single_flight Sample.fresh).
  - repeat split.
  - reflexivity.
Defined.

(** ** Metadata from the file name *)

Lemma collapse_Forall (p : ascii -> bool) (rep : ascii) (b : bool)
  (l : list ascii) :
  p rep = false ->
  Forall (fun c => p c = false) (Names.collapse p rep b l).
Proof.
  intros Hrep. revert b.
  induction l as [|c l IH]; intros b; cbn [Names.collapse]; [constructor|].
  destruct (p c) eqn:E.
  - destruct b; [apply IH|constructor; [exact Hrep|apply IH]].
  - constructor; [exact E|apply IH].
Qed.

Lemma trim_chars_Forall (P : ascii -> Prop) (l : list ascii) :
  Forall P l -> Forall P (Js.trim_chars l).
Proof.
  rewrite !Forall_forall. intros H x Hx. apply H.
  now apply trim_chars_incl.
Qed.

Lemma base_of_has_no_dash (name : string) :
  Forall (fun c => Names.is_dash c = false) (Names.base_of name).
Proof.
  unfold Names.base_of. apply trim_chars_Forall, collapse_Forall. reflexivity.
Qed.

Lemma str_match_dash_none (l : list ascii) :
  Forall (fun c => Names.is_dash c = false) l ->
  Names.str_match (Js.chars " - ") l = None.
Proof.
  intros H. unfold Names.str_match.
  change (Js.chars " - ") with [" "; "-"; " "]%char.
  destruct l as [|a [|b l]]; cbn [Names.starts_with]; try reflexivity.
  - now rewrite andb_false_r.
  - inversion H as [|? ? _ H1]; subst. inversion H1 as [|? ? Hb _]; subst.
    unfold Names.is_dash in Hb. apply orb_false_iff in Hb.
    destruct Hb as [_ Hb]. rewrite Ascii.eqb_sym in Hb. rewrite Hb.
    cbn [andb]. now rewrite andb_false_r.
Qed.

Lemma split_on_no_match (f : list ascii -> option nat) (piece l : list ascii) :
  (forall a b, l = (a ++ b)%list -> f b = None) ->
  Names.split_on f 0 piece l = [(rev piece ++ l)%list].
Proof.
  revert piece. induction l as [|c l IH]; intros piece H; cbn [Names.split_on].
  - now rewrite app_nil_r.
  - rewrite (H [] (c :: l) eq_refl).
    rewrite IH.
    + cbn [rev]. now rewrite <- app_assoc.
    + intros a b ->. apply (H (c :: a) b). reflexivity.
Qed.

(** X14.  [inferMetadataFromFilename] turns every underscore and dash of
    the name into a space before it looks for an author, so the base never
    holds a dash and the split on [" - "] never finds two parts: a name
    gives a title and an author only through the word [by] between white
    space, and otherwise the whole base is the title, with an empty
    author. *)
Theorem infer_metadata_never_splits_on_dash (name : string) :
  Forall (fun c => c <> "-"%char /\ c <> "_"%char) (Names.base_of name) /\
  Names.split_dash (Names.base_of name) = [Names.base_of name] /\
  Names.inferMetadataFromFilename name
  = match Names.split_by (Names.base_of name) with
    | [t; a] => Names.mkMetadata (Js.str (Js.trim_chars t))
                                 (Js.str (Js.trim_chars a))
    | _ => Names.mkMetadata (Js.str (Names.base_of name)) ""
    end.
Proof.
  pose proof (base_of_has_no_dash name) as H.
  assert (D : Names.split_dash (Names.base_of name) = [Names.base_of name]).
  { unfold Names.split_dash. rewrite split_on_no_match; [reflexivity|].
    intros a b E. apply str_match_dash_none.
    rewrite E in H. now apply Forall_app in H. }
  split; [|split; [exact D|]].
  - eapply Forall_impl; [|exact H]. intros c Hc.
    unfold Names.is_dash in Hc. apply orb_false_iff in Hc.
    destruct Hc as [H1 H2].
    apply Ascii.eqb_neq in H1. apply Ascii.eqb_neq in H2. now split.
  - unfold Names.inferMetadataFromFilename. cbv zeta. rewrite D.
    destruct (Names.split_by (Names.base_of name)) as [|t [|a [|x l]]];
      reflexivity.
Qed.





Lemma dropWhile_head {A} (p : A -> bool) (x : A) (l : list A) :
  p x = false -> Js.dropWhile p (x :: l) = x :: l.
Proof. intros H. cbn [Js.dropWhile]. now rewrite H. Qed.

Lemma trim_chars_fixed (x z : ascii) (l m : list ascii) :
  Js.is_space x = false -> Js.is_space z = false ->
  rev (x :: l) = z :: m ->
  Js.trim_chars (x :: l) = x :: l.
Proof.
  intros Hx Hz E. unfold Js.trim_chars.
  rewrite (dropWhile_head _ _ _ Hx), E, (dropWhile_head _ _ _ Hz), <- E.
  apply rev_involutive.
Qed.









(** ** The download name and the upload reader *)

Lemma lower_char_not_upper (c : ascii) :
  Names.is_upper (Names.lower_char c) = false.
Proof. destruct c as [[] [] [] [] [] [] [] []]; reflexivity. Qed.

Lemma lower_char_idem (c : ascii) :
  Names.lower_char (Names.lower_char c) = Names.lower_char c.
Proof. destruct c as [[] [] [] [] [] [] [] []]; reflexivity. Qed.

Lemma lower_char_not_dot (c : ascii) :
  Names.not_dot (Names.lower_char c) = Names.not_dot c.
Proof. destruct c as [[] [] [] [] [] [] [] []]; reflexivity. Qed.

Lemma collapse_keeps (P : ascii -> Prop) (p : ascii -> bool) (rep : ascii)
  (b : bool) (l : list ascii) :
  P rep -> Forall P l -> Forall P (Names.collapse p rep b l).
Proof.
  intros Hrep H. revert b.
  induction H as [|c l Hc _ IH]; intros b; cbn [Names.collapse];
    [constructor|].
  destruct (p c); [destruct b|]; try constructor; auto.
Qed.

Lemma chars_append_str (l : list ascii) (s : string) :
  Js.chars (Js.str l ++ s) = (l ++ Js.chars s)%list.
Proof. now rewrite chars_append, chars_str. Qed.

(** X16.  The name [download] gives the file holds no white space and no
    upper-case letter and ends with a dot and the extension asked for,
    whatever the title; with an empty title it is the word distillation
    and the extension. *)
Theorem download_name_is_clean (title : string) (e : Names.Ext) :
  Forall (fun c => Js.is_space c = false /\ Names.is_upper c = false)
         (Js.chars (Names.download_name title e)) /\
  (exists stem,
      Names.download_name title e = stem ++ "." ++ Names.ext_name e /\
      (title = "" -> stem = "distillation")).
Proof.
  unfold Names.download_name. split.
  - rewrite chars_append_str. apply Forall_app. split.
    + apply Forall_forall. intros c Hc. split.
      * revert c Hc. apply Forall_forall.
        apply collapse_Forall. reflexivity.
      * revert c Hc. apply Forall_forall.
        apply collapse_keeps; [reflexivity|].
        unfold Names.toLowerCase. apply Forall_forall. intros c Hc.
        apply in_map_iff in Hc. destruct Hc as (d & <- & _).
        apply lower_char_not_upper.
    + destruct e; repeat constructor.
  - eexists. split; [reflexivity|]. intros ->. reflexivity.
Qed.

Lemma download_name_is_clean_witness :
  exists stem,
    Names.download_name "" Names.txt = stem ++ "." ++ "txt" /\
    ("" = "" -> stem = "distillation").
Proof.
  apply (download_name_is_clean "" Names.txt).
Defined.

Lemma takeWhile_map {A B} (f : A -> B) (p : B -> bool) (q : A -> bool)
  (l : list A) :
  (forall x, p (f x) = q x) ->
  Js.takeWhile p (map f l) = map f (Js.takeWhile q l).
Proof.
  intros H. induction l as [|x l IH]; cbn [map Js.takeWhile]; [reflexivity|].
  rewrite H. destruct (q x); cbn [map]; [now rewrite IH|reflexivity].
Qed.

(** X17.  How [onUpload] reads a file depends only on what follows the
    last dot of its name, compared without regard to ASCII case: a stem and
    a dot in front change nothing (so a file named just [pdf] is read as a
    PDF), and neither does writing the name in lower case. *)
Theorem reader_depends_on_extension_only (stem e : string) :
  Forall (fun c => Names.not_dot c = true) (Js.chars e) ->
  Names.reader_of (stem ++ "." ++ e) = Names.reader_of e /\
  Names.reader_of (Js.str (Names.toLowerCase (Js.chars (stem ++ "." ++ e))))
  = Names.reader_of e.
Proof.
  intros He.
  assert (E1 : Names.extension (stem ++ "." ++ e) = Names.extension e).
  { unfold Names.extension. rewrite !chars_append.
    change (Js.chars ".") with ["."%char].
    rewrite !rev_app_distr. cbn [rev app]. rewrite <- app_assoc. cbn [app].
    rewrite takeWhile_app_stop by (try apply Forall_rev; easy).
    rewrite <- (app_nil_r (rev (Js.chars e))) at 2.
    rewrite takeWhile_app_stop by (try apply Forall_rev; easy).
    reflexivity. }
  assert (E2 : forall s,
             Names.extension (Js.str (Names.toLowerCase (Js.chars s)))
             = Names.extension s).
  { intros s. unfold Names.extension. rewrite chars_str. f_equal.
    unfold Names.toLowerCase.
    rewrite <- (map_rev Names.lower_char (Js.chars s)).
    rewrite (takeWhile_map _ _ Names.not_dot) by apply lower_char_not_dot.
    rewrite <- map_rev, map_map. apply map_ext. apply lower_char_idem. }
  unfold Names.reader_of. cbv zeta. now rewrite E2, E1.
Qed.

Lemma reader_depends_on_extension_only_witness :
  Names.reader_of ("Walden.final" ++ "." ++ "PDF") = Names.reader_of "PDF".
Proof.
  apply (reader_depends_on_extension_only "Walden.final" "PDF").
  repeat constructor.
Defined.

(** ** The keys *)

Lemma lookup_set_same (k v : string) (l : list (string * string)) :
  lookup_key k (set_key k v l) = v.
Proof.
  induction l as [|[k' v'] l IH]; cbn [set_key lookup_key].
  - now rewrite String.eqb_refl.
  - destruct (String.eqb k k') eqn:E; cbn [lookup_key].
    + now rewrite String.eqb_refl.
    + now rewrite E.
Qed.

Lemma lookup_set_other (k k0 v : string) (l : list (string * string)) :
  k0 <> k -> lookup_key k0 (set_key k v l) = lookup_key k0 l.
Proof.
  intros H. induction l as [|[k' v'] l IH]; cbn [set_key lookup_key].
  - apply String.eqb_neq in H. now rewrite H.
  - destruct (String.eqb_spec k k') as [<-|E]; cbn [lookup_key].
    + apply String.eqb_neq in H. now rewrite H.
    + now rewrite IH.
Qed.

Lemma lookup_key_absent (k : string) (l : list (string * string)) :
  (forall v, ~ In (k, v) l) -> lookup_key k l = "".
Proof.
  induction l as [|[k' v'] l IH]; intros H; cbn [lookup_key]; [reflexivity|].
  destruct (String.eqb_spec k k') as [<-|E].
  - exfalso. apply (H v'). now left.
  - apply IH. intros v Hv. apply (H v). now right.
Qed.

(** X18.  Keys are kept per provider.  After a key is typed it is the
    current key; the key of every other provider is what it was, so
    selecting another provider and coming back finds the typed key again.
    A provider without an entry has the empty key, and [generateNext] then
    refuses to start. *)
Theorem api_keys_are_per_provider (key : string) (w : World) :
  let w' := setCurrentApiKey (render w) key w in
  currentApiKey (render w') = key /\
  (forall p, p <> R.provider (hooks w) ->
     currentApiKey (render (setProvider p w'))
     = currentApiKey (render (setProvider p w)) /\
     currentApiKey (render (setProvider (R.provider (hooks w))
                                        (setProvider p w'))) = key) /\
  (forall p o w0,
     (forall v, ~ In (p, v) (R.apiKeys (hooks w))) ->
     currentApiKey (render (setProvider p w)) = "" /\
     (Js.nonempty (R.bookId (hooks w)) = true ->
      generateNext_enter (render (setProvider p w)) o w0
      = (w0, Refused "Paste your API key (stored locally)"))).
Proof.
  cbv zeta. unfold currentApiKey, render, setCurrentApiKey, setApiKeys, setProvider.
  cbn [hooks R.provider R.apiKeys]. split; [apply lookup_set_same|]. split.
  - intros p Hp. split; [now apply lookup_set_other|apply lookup_set_same].
  - intros p o w0 Hno. split; [now apply lookup_key_absent|].
    intros Hb. unfold generateNext_enter, currentApiKey.
    cbn [hooks R.provider R.apiKeys R.bookId].
    rewrite Hb, (lookup_key_absent _ _ Hno). reflexivity.
Qed.

Lemma api_keys_are_per_provider_witness :
  let w := Sample.state false false false [] [] in
  currentApiKey
    (render (setProvider "openai"
               (setProvider "google" (setCurrentApiKey (render w) "sk-2" w))))
  = "sk-2" /\
  currentApiKey (render (setProvider "google" w)) = "".
Proof.
  intros w.
  destruct (api_keys_are_per_provider "sk-2" w) as (_ & H & N).
  split.
  - apply (H "google"). discriminate.
  - apply (N "google" None w).
    intros v [E|[]]. discriminate.
Defined.

(** ** Trimmed text *)

Lemma dropWhile_head_false {A} (p : A -> bool) (l : list A) :
  match Js.dropWhile p l with
  | [] => True
  | c :: _ => p c = false
  end.
Proof.
  induction l as [|x l IH]; cbn [Js.dropWhile]; [exact I|].
  destruct (p x) eqn:E; [exact IH|exact E].
Qed.

Lemma dropWhile_snoc {A} (p : A -> bool) (a : list A) (x : A) :
  p x = false ->
  Js.dropWhile p (a ++ [x]) = (Js.dropWhile p a ++ [x])%list.
Proof.
  intros H. induction a as [|y a IH]; cbn [app Js.dropWhile].
  - now rewrite H.
  - destruct (p y); [exact IH|reflexivity].
Qed.

Lemma trim_chars_trimmed (l : list ascii) :
  match Js.trim_chars l with
  | [] => True
  | c :: _ => Js.is_space c = false
  end /\
  match rev (Js.trim_chars l) with
  | [] => True
  | c :: _ => Js.is_space c = false
  end.
Proof.
  unfold Js.trim_chars. split.
  - pose proof (dropWhile_head_false Js.is_space l) as H.
    destruct (Js.dropWhile Js.is_space l) as [|x m]; [exact I|].
    cbn [rev]. rewrite (dropWhile_snoc _ _ _ H), rev_app_distr.
    exact H.
  - rewrite rev_involutive. apply dropWhile_head_false.
Qed.

Lemma trim_trimmed (s : string) : trimmed (Js.trim s).
Proof.
  unfold trimmed, Js.trim. rewrite chars_str. apply trim_chars_trimmed.
Qed.

Lemma trim_of_trimmed (s : string) : trimmed s -> Js.trim s = s.
Proof.
  unfold trimmed, Js.trim. intros [H1 H2].
  rewrite <- (str_chars s) at 2. f_equal.
  destruct (Js.chars s) as [|x l] eqn:E; [reflexivity|].
  destruct (rev (x :: l)) as [|z m] eqn:R.
  - apply (f_equal (@List.length ascii)) in R.
    rewrite length_rev in R. discriminate.
  - now apply (trim_chars_fixed x z l m).
Qed.

(** X19.  The content [generateNext] stores for a section and the text
    [extractTextFromPDF] returns never start or end with white space, and
    trimming them again changes nothing. *)
Theorem stored_text_is_trimmed (r : Render) (newId text : string)
  (pages : list (list string)) :
  trimmed (content (new_section r newId text)) /\
  Js.trim (content (new_section r newId text))
  = content (new_section r newId text) /\
  trimmed (Names.pdf_text pages) /\
  Js.trim (Names.pdf_text pages) = Names.pdf_text pages.
Proof.
  unfold Names.pdf_text. cbn [new_section content].
  repeat split; try apply trim_trimmed; apply trim_of_trimmed, trim_trimmed.
Qed.

(** ** The book text in the request *)

Lemma slice0_append (n : nat) (t tail : string) :
  (n <= String.length t)%nat ->
  Js.slice0 n (t ++ tail) = Js.slice0 n t.
Proof.
  intros H. rewrite <- (str_chars (Js.slice0 n (t ++ tail))),
                    <- (str_chars (Js.slice0 n t)).
  f_equal. rewrite !slice0_chars, chars_append, firstn_app, length_chars.
  replace (n - String.length t)%nat with 0%nat by lia.
  cbn [firstn]. apply app_nil_r.
Qed.

(** X20.  Only the first 100000 characters of the book text reach the
    provider: two book texts that agree on them give the same request,
    whatever follows. *)
Theorem request_ignores_text_beyond_budget (t tail1 tail2 : string)
  (w w0 : World) (o : option (list Section_)) :
  (book_text_budget <=? String.length t)%nat = true ->
  snd (generateNext_enter (render (setBookText (t ++ tail1) w)) o w0)
  = snd (generateNext_enter (render (setBookText (t ++ tail2) w)) o w0).
Proof.
  intros H. apply Nat.leb_le in H.
  unfold generateNext_enter, render, setBookText, currentApiKey, history_of,
    accepted_memo, user_prompt.
  cbn [hooks R.bookId R.title R.author R.bookText R.prompt R.provider
       R.model R.apiKeys R.autoAdvance R.maxSections R.stopToken R.isBusy
       R.shouldStop R.sections].
  now rewrite !(slice0_append _ _ _ H).
Qed.

Lemma request_ignores_text_beyond_budget_witness :
  let w := Sample.state false false false [] [] in
  snd (generateNext_enter
         (render (setBookText (replicate book_text_budget "a" ++ "x") w))
         None w)
  = snd (generateNext_enter
           (render (setBookText (replicate book_text_budget "a" ++ "y") w))
           None w).
Proof.
  intros w.
  apply (request_ignores_text_beyond_budget
           (replicate book_text_budget "a") "x" "y" w w None).
  vm_compute. reflexivity.
Defined.

(** ** From the first click to the stitched text *)

(** X21.  Start on an empty run, the provider's answer and Accept on the
    new section, with auto-advance off: the list then holds one section,
    accepted, with [order] 1 and the trimmed answer as content; the
    stitched text is exactly that content; nothing is awaited and no
    continuation check is pending. *)
Theorem first_section_end_to_end (s : Sys) (text newId : string) :
  quiet s -> ready (render (world s)) ->
  R.sections (hooks (world s)) = [] ->
  let s' := fst (run s [ClickNext; Answer 0 (Returned text) newId;
                        ClickAccept newId]) in
  stitched (render (world s')) = Js.trim text /\
  map core (R.sections (hooks (world s')))
  = [(newId, R.bookId (hooks (world s)), Js.trim text, accepted, 1)] /\
  inflight s' = [] /\ timers s' = [] /\
  R.isBusy (hooks (world s')) = false.
Proof.
  intros Hq Hr Hsec.
  pose proof (step_ClickNext_quiet s Hq Hr) as E1.
  destruct Hq as (Hi & Ht & Hb & Hs & Ha).
  destruct s as [[[b ti au bt pr pv mo ks aa mx st bu ss sec] d] i t].
  cbn [world hooks inflight timers R.isBusy R.shouldStop R.autoAdvance
       R.sections] in Hi, Ht, Hb, Hs, Ha, Hsec.
  subst i t bu ss aa sec.
  cbv zeta. cbn [run]. rewrite E1. clear E1 Hr.
  cbn -[parseHeading Js.trim Db.put String.eqb].
  rewrite String.eqb_refl.
  cbn -[parseHeading Js.trim Db.put String.eqb].
  rewrite String.eqb_refl.
  cbn -[parseHeading Js.trim Db.put String.eqb].
  repeat split.
Qed.

Lemma first_section_end_to_end_witness :
  stitched (render (world (fst (run Sample.fresh
     [ClickNext; Answer 0 (Returned "  one ") "a"; ClickAccept "a"]))))
  = Js.trim "  one ".
Proof.
  apply (first_section_end_to_end Sample.fresh "  one " "a").
  - repeat split.
  - repeat split; try reflexivity. discriminate.
  - reflexivity.
Defined.

(** ** What is on screen is stored *)

Lemma put_keeps (s x : Section_) (t : list Section_) :
  In x t -> id x <> id s -> In x (Db.put s t).
Proof.
  intros Hin Hne. induction t as [|y t IH]; [contradiction|].
  cbn [Db.put]. destruct (String.compare (id s) (id y)) eqn:C.
  - apply String.compare_eq_iff in C.
    destruct Hin as [->|Hin]; [congruence|now right].
  - right. exact Hin.
  - destruct Hin as [->|Hin]; [now left|right; now apply IH].
Qed.

Lemma core_id (a b : Section_) : core a = core b -> id a = id b.
Proof. unfold core. congruence. Qed.

Lemma stored_update (upd : Upd) (w : World) :
  stored w -> stored (updateSectionLocal upd w).
Proof.
  unfold stored, updateSectionLocal.
  cbn [hooks db set_db setSections R.sections].
  intros H s Hs. unfold map_id in Hs. apply in_map_iff in Hs.
  destruct Hs as (s0 & <- & Hs0).
  destruct (H s0 Hs0) as (row & Hrow & Hc).
  exists (if String.eqb (id row) (u_id upd) then apply_upd_row upd row else row).
  split.
  - unfold map_id. apply in_map_iff. exists row. now split.
  - rewrite (core_id _ _ Hc).
    destruct (String.eqb (id s0) (u_id upd)); [|exact Hc].
    unfold core in *. cbn. congruence.
Qed.

(** X22.  What the list shows stays stored.  If every section of the
    in-memory list has a row in the table with the same [id], content,
    status and [order], this is still so after [edit], [discard],
    [accept] and [clearRun]; after a section is appended under an [id] no
    listed section has; and after [undoLast] when the listed [id]s are
    distinct. *)
Theorem screen_stays_stored (r : Render) (w : World) :
  stored w ->
  (forall key text, stored (edit key text w)) /\
  (forall key, stored (discard key w) /\ stored (fst (accept r key w))) /\
  stored (clearRun r w) /\
  (forall c newId,
     (forall s, In s (R.sections (hooks w)) -> id s <> newId) ->
     stored (fst (generateNext_settle r c newId w))) /\
  (NoDup (map id (R.sections (hooks w))) -> stored (undoLast r w)).
Proof.
  intros H. split; [|split; [|split; [|split]]].
  - intros key text. now apply stored_update.
  - intros key. split; [now apply stored_update|].
    unfold accept. destruct (_ && _ && _)%bool; now apply stored_update.
  - unfold clearRun. destruct (negb (Js.nonempty (R.bookId r))); [exact H|].
    intros s Hs. destruct Hs.
  - intros c newId Hfresh. destruct c as [text|message]; [|exact H].
    cbn [generateNext_settle fst]. unfold stored.
    cbn [hooks db finally set_db setSections setIsBusy setShouldStop
         R.sections].
    intros s Hs. apply in_app_or in Hs. destruct Hs as [Hs|[<-|[]]].
    + destruct (H s Hs) as (row & Hrow & Hc). exists row. split; [|exact Hc].
      apply put_keeps; [exact Hrow|].
      rewrite (core_id _ _ Hc). cbn [new_section id]. now apply Hfresh.
    + exists (new_section r newId text). split; [apply put_In|reflexivity].
  - intros Hnd.
    destruct (Js.nonempty (R.bookId r)) eqn:Hb.
    2:{ now rewrite (undoLast_no_book r w Hb). }
    destruct (split_last is_accepted (R.sections (hooks w)))
      as [Hno|(l1 & p & l2 & E & Hp & H2)].
    + rewrite undoLast_none_accepted; [exact H|].
      eapply Forall_impl; [|exact Hno]. intros s. apply not_accepted_false.
    + rewrite (undoLast_split r w l1 l2 p Hb E (proj1 (is_accepted_true p) Hp)).
      2:{ eapply Forall_impl; [|exact H2]. intros s. apply not_accepted_false. }
      unfold stored. cbn [hooks db set_db setSections R.sections].
      intros s Hs.
      assert (Hin : In s (R.sections (hooks w))).
      { rewrite E. apply in_app_or in Hs. apply in_or_app.
        destruct Hs; [now left|right; now right]. }
      destruct (H s Hin) as (row & Hrow & Hc). exists row. split; [|exact Hc].
      unfold Db.delete. apply filter_In. split; [exact Hrow|].
      apply negb_true_iff, String.eqb_neq. rewrite (core_id _ _ Hc).
      rewrite E, map_app in Hnd. cbn [map] in Hnd.
      apply NoDup_remove_2 in Hnd. intros Eid. apply Hnd.
      rewrite <- Eid, <- map_app. now apply in_map.
Qed.

Lemma screen_stays_stored_witness :
  let l := [Sample.sec "a" "one" accepted 1; Sample.sec "b" "two" draft 2] in
  let w := Sample.state false false false l l in
  stored (edit "b" "# Two" w) /\ stored (undoLast (render w) w).
Proof.
  intros l w.
  assert (S0 : stored w).
  { intros s [<-|[<-|[]]]; eexists; (split; [|reflexivity]);
      [left|right; left]; reflexivity. }
  destruct (screen_stays_stored (render w) w S0) as (E & _ & _ & _ & U).
  split; [apply E|apply U].
  repeat constructor; cbn; intuition discriminate.
Defined.

(** ** The mode a cycle runs in *)

Lemma step_click_idle (s : Sys) (auto : bool) :
  inflight s = [] ->
  R.isBusy (hooks (world s)) = false ->
  R.shouldStop (hooks (world s)) = false ->
  ready (render (world s)) ->
  step s (if auto then ClickAuto else ClickNext)
  = (mkSys (setIsBusy true (setAutoAdvance auto (world s)))
           [render (world s)] (timers s), None).
Proof.
  intros Hi Hb Hs Hr.
  destruct (enter_ready (hooks (world s)) None
              (setAutoAdvance auto (world s)) Hr Hs) as [rq E].
  destruct auto; unfold step, click_auto, click_next, render in *;
    rewrite Hb, E, Hi; reflexivity.
Qed.

(** X23.  A cycle runs in the mode of the render its button belongs to;
    the [setAutoAdvance] of the click that starts it comes too late for
    it.  With a section already in the list: Auto advance clicked while
    the mode is off turns the mode on, yet the section that comes back is
    a draft and no continuation check is scheduled; Start / Next clicked
    while the mode is on turns the mode off, yet the section that comes
    back is accepted at once and a continuation check is scheduled. *)
Theorem click_mode_change_misses_its_cycle (s : Sys) (text newId : string) :
  inflight s = [] ->
  R.isBusy (hooks (world s)) = false ->
  R.shouldStop (hooks (world s)) = false ->
  ready (render (world s)) ->
  R.sections (hooks (world s)) <> [] ->
  (R.autoAdvance (hooks (world s)) = false ->
   let s' := fst (run s [ClickAuto; Answer 0 (Returned text) newId]) in
   R.autoAdvance (hooks (world s')) = true /\
   map status (R.sections (hooks (world s')))
   = (map status (R.sections (hooks (world s))) ++ [draft])%list /\
   timers s' = timers s) /\
  (R.autoAdvance (hooks (world s)) = true ->
   let s' := fst (run s [ClickNext; Answer 0 (Returned text) newId]) in
   R.autoAdvance (hooks (world s')) = false /\
   map status (R.sections (hooks (world s')))
   = (map status (R.sections (hooks (world s))) ++ [accepted])%list /\
   exists h,
     timers s' = (timers s ++ [AfterGenerate (render (world s)) h])%list).
Proof.
  intros Hi Hb Hs Hr Hne.
  pose proof (step_click_idle s true Hi Hb Hs Hr) as EA.
  pose proof (step_click_idle s false Hi Hb Hs Hr) as EN.
  cbv iota in EA, EN.
  assert (Hlen : (List.length (R.sections (hooks (world s))) =? 0)%nat = false).
  { destruct (R.sections (hooks (world s))); [now destruct Hne|reflexivity]. }
  split; intros Ha; cbv zeta; cbn [run]; [rewrite EA|rewrite EN];
    cbn [step world inflight timers nth_error generateNext_settle];
    unfold render; rewrite Ha, Hs, Hlen; cbn [andb negb fst option_list];
    cbn [world timers finally set_db setSections setIsBusy setShouldStop
         setAutoAdvance hooks R.sections R.autoAdvance].
  - rewrite app_nil_r. split; [reflexivity|]. split; [|reflexivity].
    rewrite map_app. cbn [map new_section status]. unfold sectionStatus.
    now rewrite Ha.
  - split; [reflexivity|]. split; [|eexists; reflexivity].
    rewrite map_app. cbn [map new_section status]. unfold sectionStatus.
    now rewrite Ha, Hlen.
Qed.

Lemma click_mode_change_misses_its_cycle_witness :
  let l := [Sample.sec "a" "one" accepted 1] in
  let s := mkSys (Sample.state false false false l l) [] [] in
  let s' := fst (run s [ClickAuto; Answer 0 (Returned "two") "b"]) in
  R.autoAdvance (hooks (world s')) = true /\
  map status (R.sections (hooks (world s'))) = [accepted; draft] /\
  timers s' = [].
Proof.
  intros l s.
  apply (click_mode_change_misses_its_cycle s "two" "b");
    try reflexivity.
  - repeat split; try reflexivity. discriminate.
  - discriminate.
Defined.
